(** * InstaCaption AI Enterprise: a shallow embedding of
      [instacaption_enterprise.py] and the properties of its specification.

    Conventions of the embedding.
    - A Python [str] is the list of its Unicode code points ([N]); [len] is
      the length of that list.
    - SQLite INTEGER columns are [Z]; the four tables are lists of rows in
      rowid order.
    - [st.session_state] is a record of optional attributes: reading an
      attribute that was never assigned raises [AttributeError].
    - A script run is a computation in a state-and-exception monad over the
      database and the session state.  Runs follow one another; two runs
      are never interleaved.
    - What comes from outside the program is an input of the run: the clock,
      the MD5 digests, the text that the captioning model returns for the
      uploaded picture, the widget that was clicked, and the CSV texts,
      the archive and the SQL dump that pandas, zipfile and sqlite3 produce
      for the export and backup buttons.
    - A float is carried as its [repr]. *)

From Stdlib Require Import ZArith NArith Ascii String List Lia.
From Stdlib Require Import DecimalString DecimalZ DecimalPos.
From stdpp Require Import base tactics option list strings sorting gmap pretty.

Local Open Scope Z_scope.

(** ** Python strings *)

Definition char := N.
Definition str := list char.

Definition lit (s : string) : str :=
  map N_of_ascii (list_ascii_of_string s).

(** [Py_UNICODE_ISSPACE]: the code points on which [str.split()] splits. *)
Definition is_space (c : char) : bool :=
  ((9 <=? c) && (c <=? 13) || (28 <=? c) && (c <=? 32)
   || (c =? 133) || (c =? 160) || (c =? 5760)
   || (8192 <=? c) && (c <=? 8202)
   || (c =? 8232) || (c =? 8233) || (c =? 8239) || (c =? 8287)
   || (c =? 12288))%N.

(** [str.split()] with no argument: the maximal runs of non-space code
    points, left to right.  [cur] holds the run being scanned, reversed. *)
Fixpoint split_scan (cur : str) (s : str) : list str :=
  match s with
  | [] => match cur with [] => [] | _ => [rev cur] end
  | c :: s' =>
      if is_space c
      then match cur with
           | [] => split_scan [] s'
           | _ => rev cur :: split_scan [] s'
           end
      else split_scan (c :: cur) s'
  end.

Definition split (s : str) : list str := split_scan [] s.

(** [s.split(sep, 1)] for a one-character separator: cut at the first
    occurrence, or the whole string alone when there is none. *)
Fixpoint split_once (sep : char) (s : str) : list str :=
  match s with
  | [] => [[]]
  | c :: s' =>
      if (c =? sep)%N then [[]; s']
      else match split_once sep s' with
           | h :: t => (c :: h) :: t
           | [] => [[c]]
           end
  end.

(** [s.split(sep)] for a one-character separator. *)
Fixpoint split_sep (sep : char) (s : str) : list str :=
  match s with
  | [] => [[]]
  | c :: s' =>
      if (c =? sep)%N then [] :: split_sep sep s'
      else match split_sep sep s' with
           | h :: t => (c :: h) :: t
           | [] => [[c]]
           end
  end.

(** [sep.join(l)] *)
Fixpoint join (sep : str) (l : list str) : str :=
  match l with
  | [] => []
  | [x] => x
  | x :: l' => x ++ sep ++ join sep l'
  end.

(** ** Exceptions and results *)

Inductive exn : Type :=
| IndexError
| KeyError
| AttributeError (name : string)
| IntegrityError
| RerunException.

Inductive res (A : Type) : Type :=
| Ok (a : A)
| Raise (e : exn).
Arguments Ok {A} a.
Arguments Raise {A} e.

Global Instance res_ret : MRet res := λ A a, Ok a.
Global Instance res_bind : MBind res := λ A B f m,
  match m with
  | Ok a => f a
  | Raise e => Raise e
  end.

(** [l[i]] on a Python list *)
Definition index {A} (l : list A) (i : nat) : res A :=
  match l !! i with
  | Some x => Ok x
  | None => Raise IndexError
  end.

(** ** 2. Database *)

Record user_row := {
  u_id : Z;
  u_device_id : str;
  u_created_at : Z;
  u_last_active : option Z;
  u_caption_count : Z;
  u_ad_watched : Z;
  u_coins : Z
}.

Record ad_config_row := {
  ac_id : Z;
  ac_platform_name : str;
  ac_api_key : str;
  ac_priority : Z;
  ac_is_active : Z;
  ac_ads_per_use : Z;
  ac_min_coins : Z
}.

Record ad_event_row := {
  ae_id : Z;
  ae_user_id : Z;
  ae_platform_id : Z;
  ae_timestamp : Z;
  ae_coins_earned : Z
}.

Record caption_row := {
  cap_id : Z;
  cap_user_id : Z;
  cap_image_hash : str;
  cap_caption : str;
  cap_hashtags : str;
  cap_created_at : Z
}.

Record database := {
  users : list user_row;
  ad_configs : list ad_config_row;
  ad_events : list ad_event_row;
  captions : list caption_row
}.

(** [init_db] on a new database file: four empty tables. *)
Definition init_db : database :=
  {| users := []; ad_configs := []; ad_events := []; captions := [] |}.

(** [INTEGER PRIMARY KEY AUTOINCREMENT]: one more than the largest rowid of
    the table (no statement of the program deletes a row). *)
Definition next_rowid (ids : list Z) : Z := 1 + foldr Z.max 0 ids.

(** [INSERT INTO users (device_id) VALUES (?)]; [device_id] is UNIQUE. *)
Definition insert_user (d : database) (device : str) (now : Z) : res database :=
  if decide (device ∈ map u_device_id (users d)) then Raise IntegrityError
  else Ok {| users := users d ++
               [ {| u_id := next_rowid (map u_id (users d));
                    u_device_id := device;
                    u_created_at := now;
                    u_last_active := None;
                    u_caption_count := 0;
                    u_ad_watched := 0;
                    u_coins := 0 |} ];
             ad_configs := ad_configs d;
             ad_events := ad_events d;
             captions := captions d |}.

Definition set_users (d : database) (us : list user_row) : database :=
  {| users := us; ad_configs := ad_configs d;
     ad_events := ad_events d; captions := captions d |}.

Definition credit (reward : Z) (u : user_row) : user_row :=
  {| u_id := u_id u; u_device_id := u_device_id u;
     u_created_at := u_created_at u; u_last_active := u_last_active u;
     u_caption_count := u_caption_count u;
     u_ad_watched := u_ad_watched u + 1;
     u_coins := u_coins u + reward |}.

(** [UPDATE users SET coins = coins + ?, ad_watched = ad_watched + 1
     WHERE id=?] *)
Definition update_reward (d : database) (reward uid : Z) : database :=
  set_users d
    (map (λ u, if decide (u_id u = uid) then credit reward u else u) (users d)).

(** [INSERT INTO ad_events (user_id, platform_id, coins_earned)
     VALUES (?, ?, ?)] *)
Definition insert_ad_event (d : database) (uid pid earned now : Z) : database :=
  {| users := users d; ad_configs := ad_configs d;
     ad_events := ad_events d ++
       [ {| ae_id := next_rowid (map ae_id (ad_events d));
            ae_user_id := uid; ae_platform_id := pid;
            ae_timestamp := now; ae_coins_earned := earned |} ];
     captions := captions d |}.

(** [INSERT INTO captions (user_id, image_hash, caption, hashtags)
     VALUES (?, ?, ?, ?)] *)
Definition insert_caption (d : database) (uid : Z) (img_hash caption tags : str)
    (now : Z) : database :=
  {| users := users d; ad_configs := ad_configs d; ad_events := ad_events d;
     captions := captions d ++
       [ {| cap_id := next_rowid (map cap_id (captions d));
            cap_user_id := uid; cap_image_hash := img_hash;
            cap_caption := caption; cap_hashtags := tags;
            cap_created_at := now |} ] |}.

Definition touch (now : Z) (u : user_row) : user_row :=
  {| u_id := u_id u; u_device_id := u_device_id u;
     u_created_at := u_created_at u; u_last_active := Some now;
     u_caption_count := u_caption_count u + 1;
     u_ad_watched := u_ad_watched u;
     u_coins := u_coins u |}.

(** [UPDATE users SET caption_count = caption_count + 1, last_active = ?
     WHERE device_id = ?] *)
Definition update_caption_count (d : database) (now : Z) (device : str)
    : database :=
  set_users d
    (map (λ u, if decide (u_device_id u = device) then touch now u else u)
       (users d)).

(** [ORDER BY priority].  A table lists its rows by rowid (rows are only
    ever appended, with growing ids); SQLite scans them in that order and
    its sort keeps rows of equal priority in scan order.  A row is put
    in front of the first sorted row whose priority is not smaller. *)
Definition by_priority (r1 r2 : ad_config_row) : Prop :=
  ac_priority r1 ≤ ac_priority r2.

Global Instance by_priority_dec r1 r2 : Decision (by_priority r1 r2) :=
  Z_le_dec (ac_priority r1) (ac_priority r2).

Fixpoint insert_by_priority (r : ad_config_row) (sorted : list ad_config_row)
    : list ad_config_row :=
  match sorted with
  | [] => [r]
  | r' :: rest =>
      if decide (by_priority r r') then r :: sorted
      else r' :: insert_by_priority r rest
  end.

Definition order_by_priority (rows : list ad_config_row)
    : list ad_config_row :=
  foldr insert_by_priority [] rows.

(** [SELECT * FROM ad_configs WHERE is_active=1 ORDER BY priority] *)
Definition select_active (d : database) : list ad_config_row :=
  order_by_priority (filter (λ r, ac_is_active r = 1) (ad_configs d)).

(** ** Session state and script runs *)

(** The dictionary stored under [st.session_state['current_ad']]. *)
Record ad_info := {
  ad_platform : str;
  ad_coins : Z;
  ad_start_time : Z
}.

Record session_state := {
  device_id : option str;
  coins : option Z;
  caption_count : option Z;
  ads_watched : option Z;
  user_id : option Z;
  current_ad : option ad_info
}.

(** A session nobody has written to yet. *)
Definition new_session : session_state :=
  {| device_id := None; coins := None; caption_count := None;
     ads_watched := None; user_id := None; current_ad := None |}.

Record world := {
  db : database;
  ss : session_state
}.

(** A script run: it transforms the world and either returns or raises;
    what it did before raising stays done. *)
Definition run (A : Type) : Type := world → world * res A.

Global Instance run_ret : MRet run := λ A a w, (w, Ok a).
Global Instance run_bind : MBind run := λ A B f m w,
  match m w with
  | (w', Ok a) => f a w'
  | (w', Raise e) => (w', Raise e)
  end.

Definition raise {A} (e : exn) : run A := λ w, (w, Raise e).
Definition lift {A} (r : res A) : run A := λ w, (w, r).
Definition get_db : run database := λ w, (w, Ok (db w)).
Definition put_db (d : database) : run unit :=
  λ w, ({| db := d; ss := ss w |}, Ok tt).
Definition put_ss (s : session_state) : run unit :=
  λ w, ({| db := db w; ss := s |}, Ok tt).

(** [st.session_state.<name>]: reading an attribute that is not set raises. *)
Definition attr {A} (name : string) (field : session_state → option A)
    : run A := λ w,
  match field (ss w) with
  | Some v => (w, Ok v)
  | None => (w, Raise (AttributeError name))
  end.

(** ['<name>' in st.session_state] *)
Definition has_attr {A} (field : session_state → option A) : run bool :=
  λ w, (w, Ok (bool_decide (is_Some (field (ss w))))).

Definition set_device_id (v : str) : run unit := λ w,
  put_ss {| device_id := Some v; coins := coins (ss w);
            caption_count := caption_count (ss w);
            ads_watched := ads_watched (ss w); user_id := user_id (ss w);
            current_ad := current_ad (ss w) |} w.

Definition set_coins (v : Z) : run unit := λ w,
  put_ss {| device_id := device_id (ss w); coins := Some v;
            caption_count := caption_count (ss w);
            ads_watched := ads_watched (ss w); user_id := user_id (ss w);
            current_ad := current_ad (ss w) |} w.

Definition set_caption_count (v : Z) : run unit := λ w,
  put_ss {| device_id := device_id (ss w); coins := coins (ss w);
            caption_count := Some v;
            ads_watched := ads_watched (ss w); user_id := user_id (ss w);
            current_ad := current_ad (ss w) |} w.

Definition set_ads_watched (v : Z) : run unit := λ w,
  put_ss {| device_id := device_id (ss w); coins := coins (ss w);
            caption_count := caption_count (ss w);
            ads_watched := Some v; user_id := user_id (ss w);
            current_ad := current_ad (ss w) |} w.

Definition set_current_ad (v : ad_info) : run unit := λ w,
  put_ss {| device_id := device_id (ss w); coins := coins (ss w);
            caption_count := caption_count (ss w);
            ads_watched := ads_watched (ss w); user_id := user_id (ss w);
            current_ad := Some v |} w.

(** [for x in l: body(x)] *)
Fixpoint for_each {A} (l : list A) (body : A → run unit) : run unit :=
  match l with
  | [] => mret tt
  | x :: l' => body x ;; for_each l' body
  end.

(** ** 3. Enterprise ad system *)

(** [AdMonetizationEngine.get_active_ad_platforms] *)
Definition get_active_ad_platforms : run (list ad_config_row) :=
  d ← get_db; mret (select_active d).

Definition no_platforms : str := lit "No active ad platforms configured".

(** [AdMonetizationEngine.show_ads_to_user]; [now] is the clock reading.
    The placeholder image is taken to be in place, and the five-second
    countdown only delays the run. *)
Definition show_ads_to_user (now : Z) (uid : Z) : run (bool * str) :=
  platforms ← get_active_ad_platforms;
  match platforms with
  | [] => mret (false, no_platforms)
  | platform :: _ =>
      set_current_ad {| ad_platform := ac_platform_name platform;
                        ad_coins := ac_min_coins platform;
                        ad_start_time := now |} ;;
      let reward_coins := ac_min_coins platform in
      d ← get_db;
      put_db (update_reward d reward_coins uid) ;;
      d ← get_db;
      put_db (insert_ad_event d uid (ac_id platform) reward_coins now) ;;
      mret (true, lit "Earned " ++ lit (pretty reward_coins) ++ lit " coins!")
  end.

(** ** 4. AI caption engine *)

Definition smart : str := 129321%N :: lit " Smart".
Definition funny : str := 128514%N :: lit " Funny".
Definition inspirational : str := 128172%N :: lit " Inspirational".
Definition minimalist : str := 10134%N :: lit " Minimalist".
Definition professional : str := 128188%N :: lit " Professional".
Definition dramatic : str := 127917%N :: lit " Dramatic".

(** The six caption styles offered by the style selector. *)
Definition style_names : list str :=
  [smart; funny; inspirational; minimalist; professional; dramatic].

Definition hash_sign : char := 35%N.
Definition hashtag (word : str) : str := hash_sign :: word.

(** [[word for word in result.split() if len(word) > 3][:5]] *)
Definition keywords (result : str) : list str :=
  take 5 (filter (λ word, (3 < length word)%nat) (split result)).

Definition fixed_tags : str := lit " #InstaAI #SocialMedia".

Definition hashtags_of (result : str) : str :=
  join (lit " ") (map hashtag (keywords result)) ++ fixed_tags.

(** A dict literal is the list of its items in insertion order (the keys of
    [styles] are pairwise distinct); [d[key]] and [d.get(key, default)]. *)
Fixpoint dict_find (d : list (str * str)) (key : str) : option str :=
  match d with
  | [] => None
  | (k, v) :: d' => if decide (k = key) then Some v else dict_find d' key
  end.

Definition dict_subscript (d : list (str * str)) (key : str) : res str :=
  match dict_find d key with
  | Some v => Ok v
  | None => Raise KeyError
  end.

Definition dict_get (d : list (str * str)) (key default : str) : str :=
  match dict_find d key with
  | Some v => v
  | None => default
  end.

(** [str.capitalize] on text whose letters are ASCII: the first code point
    in upper case, the others in lower case. *)
Definition upper_ascii (c : char) : char :=
  if ((97 <=? c) && (c <=? 122))%N then (c - 32)%N else c.
Definition lower_ascii (c : char) : char :=
  if ((65 <=? c) && (c <=? 90))%N then (c + 32)%N else c.
Definition capitalize_ascii (s : str) : str :=
  match s with
  | [] => []
  | c :: s' => upper_ascii c :: map lower_ascii s'
  end.

Section CaptionGenerator.

(** [str.capitalize], a built-in of the host language. *)
Variable capitalize : str → str.

(** The [styles] dictionary; every entry is evaluated when the dictionary
    is built, so the subscript of the second entry can raise. *)
Definition styles (result : str) : res (list (str * str)) :=
  rest ← index (split_once 32%N result) 1;
  head ← index (split_sep 44%N result) 0;
  mret [ (smart, capitalize result);
         (funny, lit "LOL when I " ++ rest ++ [32%N; 128514%N]);
         (inspirational,
          lit "In this moment: " ++ result
            ++ lit ". Cherish the journey. " ++ [10024%N]);
         (minimalist, head);
         (professional, lit "High-quality image showing: " ++ result);
         (dramatic,
          lit "OMG! You won't BELIEVE what happens when " ++ result
            ++ lit "!!!") ].

(** [CaptionGenerator.generate_caption], as a function of the text that the
    captioning model returned for the image. *)
Definition generate_caption (result style : str) : res (str * str) :=
  d ← styles result;
  fallback ← dict_subscript d smart;
  let final_caption := dict_get d style fallback in
  mret (final_caption, hashtags_of result).

End CaptionGenerator.

(** ** 5. Enterprise admin dashboard: the statements behind its buttons *)

(** "Save Configuration": [INSERT INTO ad_configs (...) VALUES (...)] with
    [int(is_active)]. *)
Definition save_configuration (d : database) (platform api_key : str)
    (priority : Z) (is_active : bool) (ads_per_use min_coins : Z) : database :=
  {| users := users d;
     ad_configs := ad_configs d ++
       [ {| ac_id := next_rowid (map ac_id (ad_configs d));
            ac_platform_name := platform; ac_api_key := api_key;
            ac_priority := priority;
            ac_is_active := if is_active then 1 else 0;
            ac_ads_per_use := ads_per_use; ac_min_coins := min_coins |} ];
     ad_events := ad_events d;
     captions := captions d |}.

(** A row of the editable grid (the six displayed columns). *)
Record edited_config := {
  ed_id : Z;
  ed_platform_name : str;
  ed_priority : Z;
  ed_is_active : Z;
  ed_ads_per_use : Z;
  ed_min_coins : Z
}.

(** [UPDATE ad_configs SET priority=?, is_active=?, ads_per_use=?,
     min_coins=? WHERE id=?] *)
Definition update_config (d : database) (row : edited_config) : database :=
  {| users := users d;
     ad_configs :=
       map (λ r, if decide (ac_id r = ed_id row)
                 then {| ac_id := ac_id r;
                         ac_platform_name := ac_platform_name r;
                         ac_api_key := ac_api_key r;
                         ac_priority := ed_priority row;
                         ac_is_active := ed_is_active row;
                         ac_ads_per_use := ed_ads_per_use row;
                         ac_min_coins := ed_min_coins row |}
                 else r) (ad_configs d);
     ad_events := ad_events d;
     captions := captions d |}.

(** "Save Changes": one UPDATE per row of the grid. *)
Definition save_changes (d : database) (edited : list edited_config)
    : database :=
  foldl update_config d edited.

Definition grant (amount : Z) (u : user_row) : user_row :=
  {| u_id := u_id u; u_device_id := u_device_id u;
     u_created_at := u_created_at u; u_last_active := u_last_active u;
     u_caption_count := u_caption_count u;
     u_ad_watched := u_ad_watched u;
     u_coins := u_coins u + amount |}.

(** "Add coins" / "Apply":
    [UPDATE users SET coins = coins + ? WHERE id=?] *)
Definition add_coins (d : database) (amount uid : Z) : database :=
  set_users d
    (map (λ u, if decide (u_id u = uid) then grant amount u else u) (users d)).

(** *** The business settings file *)

(** The values that the settings dictionary holds.  A float is carried as
    its [repr], the only thing the program does with it being to write it. *)
Inductive pyvalue : Type :=
| PyInt (n : Z)
| PyFloat (repr : str)
| PyStr (s : str).

Definition unlit (s : str) : string :=
  string_of_list_ascii (map ascii_of_N s).

(** [repr] of an int. *)
Definition repr_int (n : Z) : str :=
  lit (NilZero.string_of_int (Z.to_int n)).

Definition hex_digit (n : N) : char :=
  (if n <? 10 then 48 + n else 87 + n)%N.

(** The six characters of a [\uXXXX] escape. *)
Definition escape_u (c : N) : str :=
  [ 92; 117; hex_digit ((c / 4096) `mod` 16);
    hex_digit ((c / 256) `mod` 16); hex_digit ((c / 16) `mod` 16);
    hex_digit (c `mod` 16) ]%N.

(** [json.dump] with its default [ensure_ascii=True], one code point of a
    string: the short escapes, printable ASCII as it is, and [\uXXXX]
    otherwise, with a surrogate pair above the basic plane. *)
Definition escape_char (c : char) : str :=
  (if c =? 34 then [92; 34]
   else if c =? 92 then [92; 92]
   else if c =? 10 then [92; 110]
   else if c =? 13 then [92; 114]
   else if c =? 9 then [92; 116]
   else if c =? 12 then [92; 102]
   else if c =? 8 then [92; 98]
   else if (32 <=? c) && (c <=? 126) then [c]
   else if c <? 65536 then escape_u c
   else escape_u (55296 + (c - 65536) / 1024)
          ++ escape_u (56320 + (c - 65536) `mod` 1024))%N.

Definition encode_string (s : str) : str :=
  34%N :: concat (map escape_char s) ++ [34%N].

Definition encode_value (v : pyvalue) : str :=
  match v with
  | PyInt n => repr_int n
  | PyFloat r => r
  | PyStr s => encode_string s
  end.

Definition encode_item (item : str * pyvalue) : str :=
  encode_string item.1 ++ lit ": " ++ encode_value item.2.

(** The text that [json.dump(d, f)] writes for a dict of such values, given
    by its items in insertion order (default separators). *)
Definition json_dumps (d : list (str * pyvalue)) : str :=
  123%N :: join (lit ", ") (map encode_item d) ++ [125%N].

(** The files of the working directory: path to text. *)
Definition open_w (fs : gmap string str) (path : string) : gmap string str :=
  <[path := []]> fs.

Definition write (fs : gmap string str) (path : string) (text : str)
    : gmap string str :=
  alter (λ old, old ++ text) path fs.

Definition settings_path : string := "business_config.json".

(** "Save Business Settings":
    [with open('business_config.json', 'w') as f: json.dump({...}, f)] *)
Definition save_business_settings (fs : gmap string str)
    (free_tier_ads : Z) (premium_price : str) (premium_benefits : str)
    : gmap string str :=
  let f := open_w fs settings_path in
  write f settings_path
    (json_dumps [ (lit "free_tier_ads", PyInt free_tier_ads);
                  (lit "premium_price", PyFloat premium_price);
                  (lit "premium_benefits", PyStr premium_benefits) ]).

(** **** Reading the file back *)

Definition json_ws (c : char) : bool :=
  ((c =? 32) || (c =? 9) || (c =? 10) || (c =? 13))%N.

Fixpoint skip_ws (s : str) : str :=
  match s with
  | c :: s' => if json_ws c then skip_ws s' else s
  | [] => []
  end.

Definition hex_value (c : char) : option N :=
  (if (48 <=? c) && (c <=? 57) then Some (c - 48)
   else if (97 <=? c) && (c <=? 102) then Some (c - 87)
   else if (65 <=? c) && (c <=? 70) then Some (c - 55)
   else None)%N.

Definition hex4 (a b c d : char) : option N :=
  x3 ← hex_value a; x2 ← hex_value b; x1 ← hex_value c; x0 ← hex_value d;
  Some (((x3 * 16 + x2) * 16 + x1) * 16 + x0)%N.

Definition simple_escape (e : char) : option char :=
  (if e =? 34 then Some 34
   else if e =? 92 then Some 92
   else if e =? 47 then Some 47
   else if e =? 98 then Some 8
   else if e =? 102 then Some 12
   else if e =? 110 then Some 10
   else if e =? 114 then Some 13
   else if e =? 116 then Some 9
   else None)%N.

Definition is_high_surrogate (c : N) : bool :=
  ((55296 <=? c) && (c <=? 56319))%N.
Definition is_low_surrogate (c : N) : bool :=
  ((56320 <=? c) && (c <=? 57343))%N.

Definition push (c : char) (r : option (str * str)) : option (str * str) :=
  '(s, rest) ← r; Some (c :: s, rest).

(** The characters of a JSON string after its opening quote: the decoded
    string and the text after the closing quote. *)
Fixpoint scan_string (s : str) : option (str * str) :=
  match s with
  | [] => None
  | c :: s1 =>
      if (c =? 34)%N then Some ([], s1)
      else if (c =? 92)%N then
        match s1 with
        | [] => None
        | e :: s2 =>
            if (e =? 117)%N then
              match s2 with
              | h1 :: h2 :: h3 :: h4 :: s3 =>
                  match hex4 h1 h2 h3 h4 with
                  | None => None
                  | Some hi =>
                      match s3 with
                      | b :: u :: l1 :: l2 :: l3 :: l4 :: s4 =>
                          match hex4 l1 l2 l3 l4 with
                          | Some lo =>
                              if is_high_surrogate hi && (b =? 92)%N
                                 && (u =? 117)%N && is_low_surrogate lo
                              then push (65536 + (hi - 55296) * 1024
                                         + (lo - 56320))%N (scan_string s4)
                              else push hi (scan_string s3)
                          | None => push hi (scan_string s3)
                          end
                      | _ => push hi (scan_string s3)
                      end
                  end
              | _ => None
              end
            else
              match simple_escape e with
              | Some c' => push c' (scan_string s2)
              | None => None
              end
        end
      else if (c <? 32)%N then None
      else push c (scan_string s1)
  end.

Definition number_char (c : char) : bool :=
  ((48 <=? c) && (c <=? 57) || (c =? 43) || (c =? 45) || (c =? 46)
   || (c =? 69) || (c =? 101))%N.

Definition is_digit (c : char) : bool := ((48 <=? c) && (c <=? 57))%N.

(** The longest prefix whose code points satisfy [p], and what follows. *)
Fixpoint span (p : char → bool) (s : str) : str * str :=
  match s with
  | c :: s' => if p c then let '(a, b) := span p s' in (c :: a, b) else ([], s)
  | [] => ([], [])
  end.

(** One or more digits, then [k] on what follows. *)
Definition digits_then (k : str → bool) (s : str) : bool :=
  match span is_digit s with
  | ([], _) => false
  | (_, rest) => k rest
  end.

Definition exponent_opt (s : str) : bool :=
  match s with
  | [] => true
  | e :: s1 =>
      ((e =? 69) || (e =? 101))%N &&
      match s1 with
      | sign :: s2 =>
          if ((sign =? 43) || (sign =? 45))%N
          then digits_then (λ r, bool_decide (r = [])) s2
          else digits_then (λ r, bool_decide (r = [])) s1
      | [] => false
      end
  end.

Definition fraction_opt (s : str) : bool :=
  match s with
  | c :: s1 => if (c =? 46)%N then digits_then exponent_opt s1 else exponent_opt s
  | [] => true
  end.

(** The number grammar of JSON: an optional minus sign; a zero, or a
    non-zero digit and any digits; optionally a point and one or more
    digits; optionally [e] or [E], an optional sign and one or more digits. *)
Definition number_grammar (s : str) : bool :=
  let body := match s with
              | c :: s1 => if (c =? 45)%N then s1 else s
              | [] => []
              end in
  match body with
  | c :: s1 =>
      if (c =? 48)%N then fraction_opt s1
      else is_digit c && fraction_opt (span is_digit s1).2
  | [] => false
  end.

(** A number token that JSON reads as a float: it follows the grammar and
    has a fraction or an exponent.  The [repr] of a finite float is one. *)
Definition is_float_literal (s : str) : bool :=
  forallb number_char s
  && existsb (λ c, (c =? 46) || (c =? 69) || (c =? 101))%N s
  && number_grammar s.

Definition scan_number (s : str) : option (pyvalue * str) :=
  let '(token, rest) := span number_char s in
  if is_float_literal token then Some (PyFloat token, rest)
  else if number_grammar token
       then d ← NilZero.int_of_string (unlit token);
            Some (PyInt (Z.of_int d), rest)
       else None.

Definition scan_value (s : str) : option (pyvalue * str) :=
  match s with
  | c :: s1 =>
      if (c =? 34)%N
      then '(v, rest) ← scan_string s1; Some (PyStr v, rest)
      else scan_number s
  | [] => None
  end.

(** The members of an object after its opening brace, up to the closing
    brace: the items in the order of the text, and what follows. *)
Fixpoint scan_members (fuel : nat) (s : str)
    : option (list (str * pyvalue) * str) :=
  match fuel with
  | O => None
  | S fuel' =>
      match skip_ws s with
      | q :: s1 =>
          if (q =? 34)%N then
            '(key, s2) ← scan_string s1;
            match skip_ws s2 with
            | colon :: s3 =>
                if (colon =? 58)%N then
                  '(v, s4) ← scan_value (skip_ws s3);
                  match skip_ws s4 with
                  | sep :: s5 =>
                      if (sep =? 44)%N then
                        '(items, s6) ← scan_members fuel' s5;
                        Some ((key, v) :: items, s6)
                      else if (sep =? 125)%N then Some ([(key, v)], s5)
                      else None
                  | [] => None
                  end
                else None
            | [] => None
            end
          else None
      | [] => None
      end
  end.

(** A dict built from items, a later item replacing an earlier one with
    the same key. *)
Definition dict_of_items (items : list (str * pyvalue)) : gmap str pyvalue :=
  foldl (λ d item, <[item.1 := item.2]> d) ∅ items.

(** [json.loads] on the documents that hold one flat object of ints, floats
    and strings: what a reader of the settings file gets.  (The program
    itself never reads [business_config.json] back.) *)
Definition json_loads (s : str) : option (gmap str pyvalue) :=
  match skip_ws s with
  | brace :: s1 =>
      if (brace =? 123)%N then
        match skip_ws s1 with
        | c :: s2 =>
            if (c =? 125)%N
            then match skip_ws s2 with [] => Some ∅ | _ => None end
            else '(items, s3) ← scan_members (length s1) s1;
                 match skip_ws s3 with
                 | [] => Some (dict_of_items items)
                 | _ => None
                 end
        | [] => None
        end
      else None
  | [] => None
  end.

(** The reload of the settings file:
    [json.load(open('business_config.json'))]. *)
Definition reload_settings (fs : gmap string str) : option (gmap str pyvalue) :=
  fs !! settings_path ≫= json_loads.

(** *** The dashboard *)

(** The button that triggered the run of the dashboard, with the values of
    its form. *)
Inductive admin_action : Type :=
| ViewOnly
| SaveConfiguration (platform api_key : str) (priority : Z)
    (is_active : bool) (ads_per_use min_coins : Z)
| SaveChanges (edited : list edited_config)
| ApplyAddCoins (selected_user : Z) (amount : Z)
| ExportAllUserData (users_csv captions_csv archive : str)
| SaveBusinessSettings (free_tier_ads : Z)
    (premium_price premium_benefits : str)
| BackupDatabase (dump : list str)
| ClearCache.

(** What the dashboard works on: the database and the other files of the
    working directory. *)
Record server := {
  store : database;
  disk : gmap string str
}.

(** "Export All User Data": the archive is opened for writing, the two
    tables are written as CSV files next to it and added to the archive.
    The CSV texts that pandas prints and the bytes of the finished archive
    are taken as given. *)
Definition export_all_user_data (fs : gmap string str)
    (users_csv captions_csv archive : str) : gmap string str :=
  let zipf := open_w fs "user_data_export.zip" in
  let f := write (open_w zipf "users.csv") "users.csv" users_csv in
  let f := write (open_w f "captions.csv") "captions.csv" captions_csv in
  write f "user_data_export.zip" archive.

(** "Backup Database":
    [with open('backup.sql', 'w') as f:
       for line in conn.iterdump(): f.write(f'{line}\n')];
    the lines of [iterdump] are taken as given. *)
Definition backup_database (fs : gmap string str) (dump : list str)
    : gmap string str :=
  foldl (λ f line, write f "backup.sql" (line ++ [10%N]))
    (open_w fs "backup.sql") dump.

(** [enterprise_admin_dashboard]: one run of the script for the dashboard.
    [env_password] is [ADMIN_PASSWORD] in the environment, if set.  The
    grid and its "Save Changes" button exist when the table has a row; the
    user selector offers ids of user rows, and it and the export button
    exist when the list of users shown is not empty, which needs a user
    row.  The analytics panel and the user list only read. *)
Definition enterprise_admin_dashboard (env_password : option str)
    (admin_pass : str) (action : admin_action) (s : server) : server :=
  if decide (admin_pass ≠ default (lit "admin123") env_password) then s
  else
    match action with
    | ViewOnly => s
    | SaveConfiguration platform api_key priority is_active
        ads_per_use min_coins =>
        {| store := save_configuration (store s) platform api_key priority
                      is_active ads_per_use min_coins;
           disk := disk s |}
    | SaveChanges edited =>
        if decide (ad_configs (store s) = []) then s
        else {| store := save_changes (store s) edited; disk := disk s |}
    | ApplyAddCoins selected_user amount =>
        if decide (selected_user ∈ map u_id (users (store s)))
        then {| store := add_coins (store s) amount selected_user;
                disk := disk s |}
        else s
    | ExportAllUserData users_csv captions_csv archive =>
        if decide (users (store s) = []) then s
        else {| store := store s;
                disk := export_all_user_data (disk s) users_csv captions_csv
                          archive |}
    | SaveBusinessSettings free_tier_ads premium_price premium_benefits =>
        {| store := store s;
           disk := save_business_settings (disk s) free_tier_ads
                     premium_price premium_benefits |}
    | BackupDatabase dump =>
        {| store := store s; disk := backup_database (disk s) dump |}
    | ClearCache => s
    end.

(** ** 6. Main user app *)

(** The buttons of the page: "Watch Ad i+1/n" and "Generate Caption". *)
Inductive button : Type :=
| WatchAd (i : Z)
| GenerateCaption.

Global Instance button_eq_dec : EqDecision button.
Proof. solve_decision. Defined.

(** The uploaded image, as far as the script looks at it: the MD5 of its
    bytes and the text the captioning model produces for it. *)
Record upload := {
  image_hash : str;
  generated_text : str
}.

(** What one script run receives from the outside. *)
Record inputs := {
  now : Z;
  time_hash : str;
  uploaded_file : option upload;
  style : str;
  clicked : option button
}.

(** [st.button(label, disabled=...)]: true when this run was triggered by a
    click on that button; a disabled button cannot be clicked. *)
Definition st_button (inp : inputs) (b : button) (disabled : bool) : bool :=
  bool_decide (clicked inp = Some b) && negb disabled.

(** [SELECT ads_per_use FROM ad_configs WHERE is_active=1
     ORDER BY priority LIMIT 1], then [fetchone()] *)
Definition select_ad_req (d : database) : option Z :=
  head (map ac_ads_per_use (select_active d)).

(** [ads_required = ad_req[0] if ad_req else 1]; a one-element row is
    truthy whatever it holds. *)
Definition ads_required_of (d : database) : Z :=
  match select_ad_req d with
  | Some n => n
  | None => 1
  end.

(** [range(n)] *)
Definition range (n : Z) : list Z := seqZ 0 n.

(** The [disabled=] argument of the generate button; [and] evaluates its
    right operand only when the left one holds. *)
Definition generate_disabled (ads_required : Z) : run bool :=
  count ← attr "caption_count" caption_count;
  if bool_decide (count `mod` 3 = 0)
  then watched ← attr "ads_watched" ads_watched;
       mret (bool_decide (watched < ads_required))
  else mret false.

(** The guard of the "Check if user needs to watch ads" block. *)
Definition needs_ads : run bool :=
  count ← attr "caption_count" caption_count;
  if bool_decide (count > 0)
  then count' ← attr "caption_count" caption_count;
       mret (bool_decide (count' `mod` 3 = 0))
  else mret false.

(** "Initialize session" *)
Definition initialize_session (inp : inputs) : run unit :=
  known ← has_attr device_id;
  if known : bool then mret tt
  else
    set_device_id (time_hash inp) ;;
    set_coins 0 ;;
    set_caption_count 0 ;;
    set_ads_watched 0 ;;
    device ← attr "device_id" device_id;
    d ← get_db;
    d' ← lift (insert_user d device (now inp));
    put_db d'.

(** The body of [if st.button("Watch Ad ...")]. *)
Definition watch_ad (inp : inputs) : run unit :=
  uid ← attr "user_id" user_id;
  '(success, message) ← show_ads_to_user (now inp) uid;
  if success : bool then
    balance ← attr "coins" coins;
    ad ← attr "current_ad" current_ad;
    set_coins (balance + ad_coins ad) ;;
    watched ← attr "ads_watched" ads_watched;
    set_ads_watched (watched + 1) ;;
    raise RerunException
  else mret tt.

Section MainUserApp.

Variable capitalize : str → str.

(** The body of [if st.button("Generate Caption", ...)]. *)
Definition generate (inp : inputs) (file : upload) : run unit :=
  '(caption, hashtags) ←
     lift (generate_caption capitalize (generated_text file) (style inp));
  let img_hash := image_hash file in
  uid ← attr "user_id" user_id;
  d ← get_db;
  put_db (insert_caption d uid img_hash caption hashtags (now inp)) ;;
  device ← attr "device_id" device_id;
  d ← get_db;
  put_db (update_caption_count d (now inp) device) ;;
  count ← attr "caption_count" caption_count;
  set_caption_count (count + 1).

(** [main_user_app]: one run of the script for the main page. *)
Definition main_user_app (inp : inputs) : run unit :=
  initialize_session inp ;;
  _ ← attr "caption_count" caption_count;
  _ ← attr "coins" coins;
  match uploaded_file inp with
  | None => mret tt
  | Some file =>
      d ← get_db;
      let ads_required := ads_required_of d in
      gated ← needs_ads;
      (if gated : bool then
         for_each (range ads_required) (λ i,
           if st_button inp (WatchAd i) false then watch_ad inp else mret tt)
       else mret tt) ;;
      disabled ← generate_disabled ads_required;
      if st_button inp GenerateCaption disabled then generate inp file
      else mret tt
  end.

End MainUserApp.

(** ** Vocabulary of the properties *)

(** The run that receives the same values with no button clicked. *)
Definition without_click (inp : inputs) : inputs :=
  {| now := now inp; time_hash := time_hash inp;
     uploaded_file := uploaded_file inp; style := style inp;
     clicked := None |}.

(** The sessions that the main page can produce: a new session, and the
    session left by a script run started from such a session, whatever the
    database holds at that time and whatever the run receives. *)
Inductive session_reachable (capitalize : str → str) : session_state → Prop :=
| reach_new : session_reachable capitalize new_session
| reach_run (w : world) (inp : inputs) :
    session_reachable capitalize (ss w) →
    session_reachable capitalize (ss (main_user_app capitalize inp w).1).

(** A word: a non-empty run of code points that are not white space. *)
Definition word (w : str) : Prop :=
  w ≠ [] ∧ Forall (λ c, is_space c = false) w.

(** A code point that a text received from a form can hold: below
    U+110000 and not a surrogate. *)
Definition unicode_scalar (c : char) : Prop :=
  (c < 1114112 ∧ ¬ (55296 ≤ c ≤ 57343))%N.

(** A value that [json.dump] accepts from the settings form. *)
Definition wf_value (v : pyvalue) : Prop :=
  match v with
  | PyInt _ => True
  | PyFloat r => is_float_literal r = true
  | PyStr s => Forall unicode_scalar s
  end.

Definition wf_item (item : str * pyvalue) : Prop :=
  Forall unicode_scalar item.1 ∧ wf_value item.2.

(** What the number scanner needs to know about a token that prints an
    int. *)
Definition int_token (tok : str) : Prop :=
  Forall (λ c, number_char c = true) tok
  ∧ existsb (λ c, (c =? 46) || (c =? 69) || (c =? 101))%N tok = false
  ∧ number_grammar tok = true
  ∧ ∃ c t, tok = c :: t ∧ c ≠ 34%N ∧ json_ws c = false.

(** A computation that leaves [st.session_state.user_id] as it found it. *)
Definition keeps_user_id {A} (m : run A) : Prop :=
  ∀ w, user_id (ss (m w).1) = user_id (ss w).

(** The coins and the number of ad events that the event log holds for a
    user id. *)
Definition coins_earned_by (d : database) (uid : Z) : Z :=
  foldr Z.add 0
    (map ae_coins_earned (filter (λ e, ae_user_id e = uid) (ad_events d))).

Definition ads_logged_for (d : database) (uid : Z) : Z :=
  Z.of_nat (length (filter (λ e, ae_user_id e = uid) (ad_events d))).

(** Every user row agrees with the event log. *)
Definition ledger_balanced (d : database) : Prop :=
  ∀ u, u ∈ users d →
    u_coins u = coins_earned_by d (u_id u)
    ∧ u_ad_watched u = ads_logged_for d (u_id u).

(** Every user row agrees with the event log once the admin grants are
    added to the coins. *)
Definition ledger_with_grants (d : database) (granted : Z → Z) : Prop :=
  ∀ u, u ∈ users d →
    u_coins u = coins_earned_by d (u_id u) + granted (u_id u)
    ∧ u_ad_watched u = ads_logged_for d (u_id u).

(** Every ad event belongs to a user row. *)
Definition events_owned (d : database) : Prop :=
  ∀ e, e ∈ ad_events d → ae_user_id e ∈ map u_id (users d).

Definition ledger_invariant (d : database) (granted : Z → Z) : Prop :=
  ledger_with_grants d granted
  ∧ events_owned d
  ∧ ∀ x, x ∉ map u_id (users d) → granted x = 0.

(** The statements that change the database, except the admin coin grant:
    registration of a device, a completed ad for a registered user, the
    persistence of a caption, and the two ad-configuration forms. *)
Inductive db_step : database → database → Prop :=
| step_register d device now d' :
    insert_user d device now = Ok d' → db_step d d'
| step_ad_completed w now uid :
    uid ∈ map u_id (users (db w)) →
    db_step (db w) (db (show_ads_to_user now uid w).1)
| step_caption d uid img_hash caption tags now device :
    db_step d
      (update_caption_count
         (insert_caption d uid img_hash caption tags now) now device)
| step_save_configuration d platform api_key priority is_active
    ads_per_use min_coins :
    db_step d
      (save_configuration d platform api_key priority is_active
         ads_per_use min_coins)
| step_save_changes d edited :
    db_step d (save_changes d edited).

(** The database states that the system can reach from a new database.
    Next to each state goes the total that the admin flow has granted to
    each user id so far; the "Add coins" form offers the ids of existing
    user rows only. *)
Inductive reachable : database → (Z → Z) → Prop :=
| reachable_init : reachable init_db (λ _, 0)
| reachable_step d d' granted :
    reachable d granted → db_step d d' → reachable d' granted
| reachable_grant d granted amount uid :
    reachable d granted →
    uid ∈ map u_id (users d) →
    reachable (add_coins d amount uid)
      (λ x, if decide (x = uid) then granted x + amount else granted x).

(** A computation that, run in a session without [user_id], takes a
    reachable database to a reachable database and leaves the session
    without [user_id]. *)
Definition steps_store {A} (m : run A) : Prop :=
  ∀ w granted,
    user_id (ss w) = None → reachable (db w) granted →
    reachable (db (m w).1) granted ∧ user_id (ss (m w).1) = None.

(** ** Sample data *)

Definition sample_upload : upload :=
  {| image_hash := lit "9e107d9d372bb6826bd81d3542a419d6";
     generated_text := lit "a photo of a large dog on the beach" |}.

(** A first visit of the page, and a later click on "Generate Caption"
    with a picture uploaded. *)
Definition first_visit : inputs :=
  {| now := 10; time_hash := lit "0a1b2c3d4e5f"; uploaded_file := None;
     style := smart; clicked := None |}.

Definition generate_click : inputs :=
  {| now := 20; time_hash := lit "ffffffffffff";
     uploaded_file := Some sample_upload;
     style := smart; clicked := Some GenerateCaption |}.


Definition beach_text : str := lit "a photo of a large dog on the beach".

Definition sample_user : user_row :=
  {| u_id := 1; u_device_id := lit "0a1b2c3d4e5f"; u_created_at := 10;
     u_last_active := None; u_caption_count := 0; u_ad_watched := 0;
     u_coins := 0 |}.

Definition config_low : ad_config_row :=
  {| ac_id := 1; ac_platform_name := lit "Unity Ads"; ac_api_key := lit "k1";
     ac_priority := 3; ac_is_active := 1; ac_ads_per_use := 2;
     ac_min_coins := 4 |}.

Definition config_top : ad_config_row :=
  {| ac_id := 2; ac_platform_name := lit "start.io"; ac_api_key := lit "k2";
     ac_priority := 1; ac_is_active := 1; ac_ads_per_use := 0;
     ac_min_coins := 3 |}.

Definition config_off : ad_config_row :=
  {| ac_id := 3; ac_platform_name := lit "AppLovin"; ac_api_key := lit "k3";
     ac_priority := 1; ac_is_active := 0; ac_ads_per_use := 5;
     ac_min_coins := 9 |}.

Definition config_new : ad_config_row :=
  {| ac_id := 4; ac_platform_name := lit "Google AdMob";
     ac_api_key := lit "k4"; ac_priority := 2; ac_is_active := 1;
     ac_ads_per_use := 1; ac_min_coins := 5 |}.

Definition sample_db : database :=
  {| users := [sample_user];
     ad_configs := [config_low; config_top; config_off];
     ad_events := []; captions := [] |}.

Definition sample_world : world :=
  {| db := sample_db; ss := new_session |}.

(** A new database file, with no platform configured, opened by a new
    session. *)
Definition new_world : world :=
  {| db := init_db; ss := new_session |}.

(** A database in which the admin has configured one active platform that
    asks for no ad, opened by a new session. *)
Definition zero_ads_db : database :=
  save_configuration init_db (lit "start.io") (lit "k2") 1 true 0 3.

Definition opening_world : world :=
  {| db := zero_ads_db; ss := new_session |}.

(** The database after the first visit of a new device and an admin grant of
    ten coins to its user row, and that row. *)
Definition granted_db : database :=
  store (enterprise_admin_dashboard None (lit "admin123") (ApplyAddCoins 1 10)
           {| store := db (main_user_app capitalize_ascii first_visit
                             opening_world).1;
              disk := ∅ |}).

Definition granted_user : user_row :=
  {| u_id := 1; u_device_id := lit "0a1b2c3d4e5f"; u_created_at := 10;
     u_last_active := None; u_caption_count := 0; u_ad_watched := 0;
     u_coins := 10 |}.

Definition ten_to_first : Z → Z :=
  λ x, if decide (x = 1) then 0 + 10 else 0.

(** A working directory whose settings file holds an older document with
    another field, and a benefits text with a check mark and a line break. *)
Definition old_files : gmap string str :=
  {[ settings_path :=
       lit "{" ++ [34%N] ++ lit "legacy_discount" ++ [34%N] ++ lit ": 7}" ]}.

Definition sample_benefits : str :=
  9989%N :: lit " No ads" ++ 10%N :: 9989%N :: lit " Priority processing".

(** ** Further pieces of the program and their vocabulary *)

(** The session that "Initialize session" leaves: the device token and the
    three counters at zero. *)
Definition initialized_session (device : str) : session_state :=
  {| device_id := Some device; coins := Some 0; caption_count := Some 0;
     ads_watched := Some 0; user_id := None; current_ad := None |}.

(** The user row that [INSERT INTO users (device_id) VALUES (?)] adds. *)
Definition new_user_row (d : database) (device : str) (now : Z) : user_row :=
  {| u_id := next_rowid (map u_id (users d)); u_device_id := device;
     u_created_at := now; u_last_active := None; u_caption_count := 0;
     u_ad_watched := 0; u_coins := 0 |}.

(** Several completed ads in a row for one user, one clock reading each. *)
Fixpoint complete_ads (times : list Z) (uid : Z) (w : world) : world :=
  match times with
  | [] => w
  | now :: times' => complete_ads times' uid (show_ads_to_user now uid w).1
  end.

(** The grid of the "Active Ad Platforms" panel:
    [SELECT * FROM ad_configs ORDER BY priority], the six displayed columns. *)
Definition grid_row (r : ad_config_row) : edited_config :=
  {| ed_id := ac_id r; ed_platform_name := ac_platform_name r;
     ed_priority := ac_priority r; ed_is_active := ac_is_active r;
     ed_ads_per_use := ac_ads_per_use r; ed_min_coins := ac_min_coins r |}.

Definition configs_grid (d : database) : list edited_config :=
  map grid_row (order_by_priority (ad_configs d)).

(** A configuration row with the four columns that "Save Changes" writes
    taken from a row of the grid. *)
Definition edit_row (e : edited_config) (r : ad_config_row) : ad_config_row :=
  {| ac_id := ac_id r; ac_platform_name := ac_platform_name r;
     ac_api_key := ac_api_key r; ac_priority := ed_priority e;
     ac_is_active := ed_is_active e; ac_ads_per_use := ed_ads_per_use e;
     ac_min_coins := ed_min_coins e |}.

(** The last row of the grid that carries a given id, if there is one. *)
Definition grid_lookup (edited : list edited_config) (id : Z)
    : option edited_config :=
  last (filter (λ e, ed_id e = id) edited).

(** The "Ads Watched" metric of the analytics panel:
    [SELECT SUM(ad_watched) FROM users]; the sum over an empty table is
    NULL. *)
Definition total_ads (d : database) : option Z :=
  match users d with
  | [] => None
  | us => Some (foldr Z.add 0 (map u_ad_watched us))
  end.

(** The primary keys and the UNIQUE column of the tables hold no value
    twice. *)
Definition keys_unique (d : database) : Prop :=
  NoDup (map u_id (users d))
  ∧ NoDup (map u_device_id (users d))
  ∧ NoDup (map ac_id (ad_configs d))
  ∧ NoDup (map ae_id (ad_events d))
  ∧ NoDup (map cap_id (captions d)).

(** A computation that leaves the whole world as it found it when the
    session is the one that initialization leaves. *)
Definition idle_when_initialized {A} (m : run A) : Prop :=
  ∀ d device,
    (m {| db := d; ss := initialized_session device |}).1
    = {| db := d; ss := initialized_session device |}.

(** The databases that the program itself produces from a new database
    file: by runs of the main page in sessions that the page can produce,
    and by runs of the dashboard. *)
Inductive store_reachable (capitalize : str → str) : database → Prop :=
| store_new : store_reachable capitalize init_db
| store_page w inp :
    store_reachable capitalize (db w) →
    session_reachable capitalize (ss w) →
    store_reachable capitalize (db (main_user_app capitalize inp w).1)
| store_dashboard env_password admin_pass action s :
    store_reachable capitalize (store s) →
    store_reachable capitalize
      (store (enterprise_admin_dashboard env_password admin_pass action s)).

(** A database after some traffic: two platforms configured, two devices
    registered, an ad completed for each user, a caption stored for each,
    and ten coins granted to the first user. *)
Definition second_visit : inputs :=
  {| now := 15; time_hash := lit "ffffffffffff"; uploaded_file := None;
     style := smart; clicked := None |}.

Definition two_platforms_db : database :=
  save_configuration
    (save_configuration init_db (lit "Unity Ads") (lit "k1") 3 true 2 4)
    (lit "start.io") (lit "k2") 1 true 0 3.

Definition one_user_db : database :=
  db (main_user_app capitalize_ascii first_visit
        {| db := two_platforms_db; ss := new_session |}).1.

Definition two_users_db : database :=
  db (main_user_app capitalize_ascii second_visit
        {| db := one_user_db; ss := new_session |}).1.

Definition one_event_db : database :=
  db (show_ads_to_user 50 1 {| db := two_users_db; ss := new_session |}).1.

Definition two_events_db : database :=
  db (show_ads_to_user 60 2 {| db := one_event_db; ss := new_session |}).1.

Definition one_caption_db : database :=
  update_caption_count
    (insert_caption two_events_db 1 (image_hash sample_upload)
       (capitalize_ascii beach_text) (hashtags_of beach_text) 70)
    70 (lit "0a1b2c3d4e5f").

Definition two_captions_db : database :=
  update_caption_count
    (insert_caption one_caption_db 2 (image_hash sample_upload)
       (capitalize_ascii beach_text) (hashtags_of beach_text) 80)
    80 (lit "ffffffffffff").

Definition busy_db : database := add_coins two_captions_db 10 1.

(** Three active platforms, all saved with priority 2. *)
Definition tied_db : database :=
  save_configuration
    (save_configuration
       (save_configuration init_db (lit "start.io") (lit "k1") 2 true 1 4)
       (lit "Unity Ads") (lit "k2") 2 true 2 5)
    (lit "AppLovin") (lit "k3") 2 true 3 6.

(** More sample data: a text without a long word and a text with a comma. *)
Definition short_text : str := lit "a dog on ice".

Definition comma_text : str := lit "a dog, on the beach".

(** * Verified properties *)

(** ** Words and whitespace *)

Lemma split_scan_run cur w s :
  Forall (λ c, is_space c = false) w →
  split_scan cur (w ++ s) = split_scan (rev w ++ cur) s.
Proof.
  intros Hw. revert cur. induction Hw as [|c w Hc _ IH]; intros cur; [done|].
  cbn [app split_scan]. rewrite Hc, IH. cbn [rev]. by rewrite <- app_assoc.
Qed.

Lemma split_space c s : is_space c = true → split (c :: s) = split s.
Proof. intros Hc. unfold split. cbn [split_scan]. by rewrite Hc. Qed.

Lemma split_word_space w c s :
  word w → is_space c = true → split (w ++ c :: s) = w :: split s.
Proof.
  intros [Hne Hw] Hc. unfold split. rewrite split_scan_run by done.
  rewrite app_nil_r. cbn [split_scan]. rewrite Hc.
  destruct (rev w) as [|x r] eqn:E.
  - apply (f_equal (@rev _)) in E. rewrite rev_involutive in E. done.
  - by rewrite <- E, rev_involutive.
Qed.

Lemma rev_run_word x cur :
  Forall (λ c, is_space c = false) (x :: cur) → word (rev (x :: cur)).
Proof.
  intros Hcur. split; [|by apply Forall_rev].
  intros E. apply (f_equal (@length _)) in E. by rewrite length_rev in E.
Qed.

Lemma split_scan_words cur s :
  Forall (λ c, is_space c = false) cur → Forall word (split_scan cur s).
Proof.
  revert cur. induction s as [|c s IH]; intros cur Hcur; cbn [split_scan].
  - destruct cur as [|x cur]; [constructor|].
    constructor; [by apply rev_run_word|constructor].
  - destruct (is_space c) eqn:Hc.
    + destruct cur as [|x cur]; [by apply IH|].
      constructor; [by apply rev_run_word|by apply IH].
    + apply IH. by constructor.
Qed.

Lemma split_words s : Forall word (split s).
Proof. apply split_scan_words. constructor. Qed.

Lemma hashtag_word w : word w → word (hashtag w).
Proof. intros [_ Hw]. split; [done|]. by constructor. Qed.

(** Splitting a space-joined list of words that is followed by a space
    gives the words back. *)
Lemma split_join ws tail :
  Forall word ws →
  split (join (lit " ") ws ++ lit " " ++ tail) = ws ++ split tail.
Proof.
  induction 1 as [|w ws Hw Hws IH].
  - by apply split_space.
  - destruct ws as [|w' ws].
    + cbn [join app]. by apply split_word_space.
    + change (join (lit " ") (w :: w' :: ws))
        with (w ++ lit " " ++ join (lit " ") (w' :: ws)).
      rewrite <- !app_assoc. change (lit " " ++ ?x) with (32%N :: x).
      rewrite split_word_space by done.
      cbn [app]. f_equal. apply IH.
Qed.

Lemma keywords_sublist result : keywords result `sublist_of` split result.
Proof.
  unfold keywords. etrans; [apply sublist_take|]. apply sublist_filter.
Qed.

Lemma hashtags_tokens result :
  split (hashtags_of result)
  = map hashtag (keywords result) ++ [lit "#InstaAI"; lit "#SocialMedia"].
Proof.
  unfold hashtags_of.
  change fixed_tags with (lit " " ++ lit "#InstaAI #SocialMedia").
  rewrite split_join; [done|].
  rewrite Forall_map. eapply Forall_impl; [|intros w; apply hashtag_word].
  pose proof (split_words result) as Hall. rewrite Forall_forall in Hall.
  apply Forall_forall. intros w Hw. apply Hall.
  eapply sublist_subseteq; [apply keywords_sublist|done].
Qed.

(** ** The caption generator *)

Lemma split_sep_head sep s : ∃ h t, split_sep sep s = h :: t.
Proof.
  induction s as [|c s (h & t & IH)]; cbn [split_sep]; [by eexists _, _|].
  destruct (c =? sep)%N; [by eexists _, _|]. rewrite IH. by eexists _, _.
Qed.

Lemma split_once_found sep s :
  sep ∈ s → ∃ h t, split_once sep s = [h; t].
Proof.
  induction s as [|c s IH]; intros Hin; [by apply elem_of_nil in Hin|].
  cbn [split_once]. destruct (c =? sep)%N eqn:E; [by eexists _, _|].
  apply N.eqb_neq in E. apply elem_of_cons in Hin as [->|Hin]; [done|].
  destruct (IH Hin) as (h & t & ->). by eexists _, _.
Qed.

Lemma split_once_missing sep s : sep ∉ s → split_once sep s = [s].
Proof.
  induction s as [|c s IH]; intros Hin; [done|].
  cbn [split_once]. apply not_elem_of_cons in Hin as [Hc Hin].
  destruct (c =? sep)%N eqn:E; [apply N.eqb_eq in E; by subst|].
  by rewrite IH.
Qed.

Lemma styles_find_smart capitalize result d :
  styles capitalize result = Ok d → dict_find d smart = Some (capitalize result).
Proof.
  unfold styles. destruct (index (split_once 32%N result) 1); [|done].
  destruct (index (split_sep 44%N result) 0); [|done].
  cbn. intros [= <-]. cbn. by rewrite decide_True.
Qed.

Lemma styles_find_unknown capitalize result d style :
  styles capitalize result = Ok d → style ∉ style_names →
  dict_find d style = None.
Proof.
  unfold styles. destruct (index (split_once 32%N result) 1); [|done].
  destruct (index (split_sep 44%N result) 0); [|done].
  cbn. intros [= <-] Hstyle. unfold style_names in Hstyle.
  rewrite !not_elem_of_cons in Hstyle.
  destruct Hstyle as (? & ? & ? & ? & ? & ? & _).
  cbn. by rewrite !decide_False.
Qed.

Lemma styles_defined capitalize result :
  32%N ∈ result → ∃ d, styles capitalize result = Ok d.
Proof.
  intros Hsp. unfold styles, index.
  destruct (split_once_found _ _ Hsp) as (h & t & ->).
  destruct (split_sep_head 44%N result) as (h' & t' & ->). cbn. eauto.
Qed.

Lemma styles_undefined capitalize result :
  32%N ∉ result → styles capitalize result = Raise IndexError.
Proof.
  intros Hsp. unfold styles, index. by rewrite split_once_missing.
Qed.

Lemma generate_caption_tags capitalize result style caption hashtags :
  generate_caption capitalize result style = Ok (caption, hashtags) →
  hashtags = hashtags_of result.
Proof.
  unfold generate_caption. destruct (styles capitalize result) as [d|]; [|done].
  cbn. destruct (dict_subscript d smart); [|done]. cbn. by intros [= _ <-].
Qed.

(** C3. Whenever [generate_caption] returns, its hashtag string is made of
    at most five derived tags followed by the two fixed tags [#InstaAI] and
    [#SocialMedia]; every derived tag is ['#'] (U+0023, code point 35)
    followed by a word of the description that has more than three
    characters, and the derived tags come in the order in which their words
    occur in the description. *)
Theorem generate_caption_hashtags capitalize result style caption hashtags :
  generate_caption capitalize result style = Ok (caption, hashtags) →
  ∃ derived : list str,
    hashtags
    = join [32%N] (map (λ w, 35%N :: w) derived)
      ++ lit " #InstaAI #SocialMedia"
    ∧ split hashtags
      = map (λ w, 35%N :: w) derived ++ [lit "#InstaAI"; lit "#SocialMedia"]
    ∧ (length derived ≤ 5)%nat
    ∧ Forall (λ w, w ∈ split result ∧ (3 < length w)%nat) derived
    ∧ derived `sublist_of` split result.
Proof.
  intros ->%generate_caption_tags. exists (keywords result).
  split; [done|]. split; [apply hashtags_tokens|].
  split; [unfold keywords; rewrite length_take; lia|].
  split; [|apply keywords_sublist].
  apply Forall_forall. intros w Hw. unfold keywords in Hw.
  apply (sublist_subseteq _ _ (sublist_take _ _)) in Hw.
  apply list_elem_of_filter in Hw. tauto.
Qed.

Lemma generate_caption_hashtags_witness :
  ∃ derived : list str,
    hashtags_of beach_text
    = join [32%N] (map (λ w, 35%N :: w) derived)
      ++ lit " #InstaAI #SocialMedia"
    ∧ split (hashtags_of beach_text)
      = map (λ w, 35%N :: w) derived ++ [lit "#InstaAI"; lit "#SocialMedia"]
    ∧ (length derived ≤ 5)%nat
    ∧ Forall (λ w, w ∈ split beach_text ∧ (3 < length w)%nat) derived
    ∧ derived `sublist_of` split beach_text.
Proof.
  apply (generate_caption_hashtags capitalize_ascii beach_text smart
           (capitalize_ascii beach_text)).
  vm_compute. reflexivity.
Defined.

(** C4. A style selector outside the six enumerated styles gives exactly the
    result of the default style, whatever the selector is; on a description
    that contains a space this result is the capitalised description with
    the hashtags, and otherwise both raise [IndexError]. *)
Theorem unknown_style_falls_back capitalize result style :
  style ∉ style_names →
  generate_caption capitalize result style
  = generate_caption capitalize result smart
  ∧ (32%N ∈ result →
     generate_caption capitalize result style
     = Ok (capitalize result, hashtags_of result))
  ∧ (32%N ∉ result →
     generate_caption capitalize result style = Raise IndexError).
Proof.
  intros Hstyle.
  assert (32%N ∈ result →
          generate_caption capitalize result style
          = Ok (capitalize result, hashtags_of result)
          ∧ generate_caption capitalize result smart
            = Ok (capitalize result, hashtags_of result)) as Hsp.
  { intros [d Hd]%(styles_defined capitalize). unfold generate_caption.
    rewrite Hd. cbn. unfold dict_subscript, dict_get.
    rewrite (styles_find_smart _ _ _ Hd). cbn.
    by rewrite (styles_find_unknown _ _ _ _ Hd Hstyle). }
  assert (32%N ∉ result → ∀ s,
          generate_caption capitalize result s = Raise IndexError) as Hno.
  { intros Hd%(styles_undefined capitalize) s. unfold generate_caption.
    by rewrite Hd. }
  split_and!.
  - destruct (decide (32%N ∈ result)) as [Hin|Hin].
    + destruct (Hsp Hin) as [-> ->]. done.
    + by rewrite !(Hno Hin).
  - intros Hin. by destruct (Hsp Hin).
  - intros Hin. apply (Hno Hin).
Qed.

Lemma unknown_style_falls_back_witness :
  generate_caption capitalize_ascii beach_text (lit "Zany")
  = generate_caption capitalize_ascii beach_text smart
  ∧ (32%N ∈ beach_text →
     generate_caption capitalize_ascii beach_text (lit "Zany")
     = Ok (capitalize_ascii beach_text, hashtags_of beach_text))
  ∧ (32%N ∉ beach_text →
     generate_caption capitalize_ascii beach_text (lit "Zany")
     = Raise IndexError).
Proof.
  apply (unknown_style_falls_back capitalize_ascii beach_text (lit "Zany")).
  unfold style_names. rewrite !not_elem_of_cons.
  split_and!; try (intros [=]). apply not_elem_of_nil.
Defined.

(** ** Active platforms in priority order *)

Lemma insert_by_priority_Permutation r l : insert_by_priority r l ≡ₚ r :: l.
Proof.
  induction l as [|r' l IH]; cbn [insert_by_priority]; [done|].
  case_decide; [done|]. rewrite IH. apply Permutation_swap.
Qed.

Lemma order_by_priority_cons r l :
  order_by_priority (r :: l) = insert_by_priority r (order_by_priority l).
Proof. done. Qed.

Lemma order_by_priority_Permutation l : order_by_priority l ≡ₚ l.
Proof.
  induction l as [|r l IH]; [done|]. rewrite order_by_priority_cons.
  rewrite insert_by_priority_Permutation. by apply Permutation_skip.
Qed.

Lemma insert_by_priority_sorted r l :
  StronglySorted by_priority l →
  StronglySorted by_priority (insert_by_priority r l).
Proof.
  induction 1 as [|r' l Hs IH Hall]; cbn [insert_by_priority].
  - by repeat constructor.
  - case_decide as Hle.
    + constructor; [by constructor|]. constructor; [done|].
      eapply Forall_impl; [exact Hall|]. unfold by_priority in *.
      intros q Hq. cbn beta in Hq. lia.
    + constructor; [done|]. rewrite insert_by_priority_Permutation.
      constructor; [|done]. unfold by_priority in *. lia.
Qed.

Lemma order_by_priority_sorted l :
  StronglySorted by_priority (order_by_priority l).
Proof.
  induction l as [|r l IH]; [constructor|]. rewrite order_by_priority_cons.
  by apply insert_by_priority_sorted.
Qed.

(** Rows of one priority keep the order they have in the table. *)
Lemma insert_by_priority_filter p r l :
  StronglySorted by_priority l →
  filter (λ q, ac_priority q = p) (insert_by_priority r l)
  = filter (λ q, ac_priority q = p) (r :: l).
Proof.
  induction 1 as [|r' l Hs IH Hall]; cbn [insert_by_priority]; [done|].
  case_decide as Hle; [done|].
  rewrite filter_cons, IH, !filter_cons. unfold by_priority in Hle.
  repeat case_decide; done || lia.
Qed.

Lemma order_by_priority_filter p l :
  filter (λ q, ac_priority q = p) (order_by_priority l)
  = filter (λ q, ac_priority q = p) l.
Proof.
  induction l as [|r l IH]; [done|]. rewrite order_by_priority_cons.
  rewrite insert_by_priority_filter by apply order_by_priority_sorted.
  by rewrite !filter_cons, IH.
Qed.

Lemma select_active_elem d r :
  r ∈ select_active d ↔ r ∈ ad_configs d ∧ ac_is_active r = 1.
Proof.
  unfold select_active. rewrite order_by_priority_Permutation.
  rewrite list_elem_of_filter. tauto.
Qed.

Lemma select_active_sorted d : StronglySorted by_priority (select_active d).
Proof. apply order_by_priority_sorted. Qed.

Lemma select_active_nil d :
  select_active d = [] ↔ ∀ r, r ∈ ad_configs d → ac_is_active r ≠ 1.
Proof.
  split.
  - intros E r Hr Hact.
    assert (r ∈ select_active d) as Hin by by apply select_active_elem.
    rewrite E in Hin. by apply elem_of_nil in Hin.
  - intros Hnone. destruct (select_active d) as [|r l] eqn:E; [done|].
    assert (r ∈ select_active d) as Hin by (rewrite E; left).
    apply select_active_elem in Hin as [Hin Hact]. by destruct (Hnone r).
Qed.

(** The first row that the query returns is an active row of the table, and
    no active row has a smaller priority number. *)
Lemma select_active_head d p rest :
  select_active d = p :: rest →
  p ∈ ad_configs d ∧ ac_is_active p = 1
  ∧ ∀ q, q ∈ ad_configs d → ac_is_active q = 1 →
         ac_priority p ≤ ac_priority q.
Proof.
  intros E.
  assert (p ∈ select_active d) as [Hp Hact]%select_active_elem
    by (rewrite E; left).
  split_and!; [done..|]. intros q Hq Hqact.
  assert (q ∈ select_active d) as Hin by by apply select_active_elem.
  pose proof (select_active_sorted d) as Hs. rewrite E in Hs, Hin.
  apply StronglySorted_inv in Hs as [_ Hall].
  apply elem_of_cons in Hin as [->|Hin]; [lia|].
  rewrite Forall_forall in Hall. by apply Hall.
Qed.

Lemma sorted_positions (l : list ad_config_row) i j x y :
  StronglySorted by_priority l →
  l !! i = Some x → l !! j = Some y →
  ac_priority x < ac_priority y → (i < j)%nat.
Proof.
  intros Hs Hi Hj Hlt. destruct (decide (i < j)%nat) as [|Hge]; [done|].
  exfalso. destruct (decide (i = j)) as [->|Hne].
  - rewrite Hi in Hj. injection Hj as ->. lia.
  - assert (j < i)%nat as Hji by lia.
    rewrite <- (take_drop i l) in Hs.
    assert (by_priority y x) as Hyx; [|unfold by_priority in Hyx; lia].
    apply (StronglySorted_app_1_elem_of _ _ _ _ _ Hs).
    + apply elem_of_take. eauto.
    + apply list_elem_of_lookup. exists 0%nat.
      by rewrite lookup_drop, Nat.add_0_r.
Qed.

(** ** C5, C6, C7 *)

(** C5. [show_ads_to_user] reports that no platform is configured exactly
    when the table holds no active configuration, and then changes nothing.
    Otherwise it picks an active configuration with the lowest priority
    number; in the user rows with the given id the coins grow by that
    configuration's coin reward and the ad counter by one, every other
    column and row stays as it is, and one ad event is appended that records
    the same user, platform and reward. *)
Theorem show_ads_to_user_reward now uid w :
  ((∀ r, r ∈ ad_configs (db w) → ac_is_active r ≠ 1)
   ↔ (show_ads_to_user now uid w).2 = Ok (false, no_platforms))
  ∧ ((∀ r, r ∈ ad_configs (db w) → ac_is_active r ≠ 1) →
     (show_ads_to_user now uid w).1 = w)
  ∧ ((∃ r, r ∈ ad_configs (db w) ∧ ac_is_active r = 1) →
     ∃ platform message,
       platform ∈ ad_configs (db w) ∧ ac_is_active platform = 1
       ∧ (∀ q, q ∈ ad_configs (db w) → ac_is_active q = 1 →
               ac_priority platform ≤ ac_priority q)
       ∧ (show_ads_to_user now uid w).2 = Ok (true, message)
       ∧ users (db (show_ads_to_user now uid w).1)
         = map (λ u, if decide (u_id u = uid)
                     then {| u_id := u_id u; u_device_id := u_device_id u;
                             u_created_at := u_created_at u;
                             u_last_active := u_last_active u;
                             u_caption_count := u_caption_count u;
                             u_ad_watched := u_ad_watched u + 1;
                             u_coins := u_coins u + ac_min_coins platform |}
                     else u)
             (users (db w))
       ∧ ad_events (db (show_ads_to_user now uid w).1)
         = ad_events (db w) ++
           [ {| ae_id := next_rowid (map ae_id (ad_events (db w)));
                ae_user_id := uid; ae_platform_id := ac_id platform;
                ae_timestamp := now;
                ae_coins_earned := ac_min_coins platform |} ]
       ∧ ad_configs (db (show_ads_to_user now uid w).1) = ad_configs (db w)
       ∧ captions (db (show_ads_to_user now uid w).1) = captions (db w)).
Proof.
  unfold show_ads_to_user, get_active_ad_platforms, get_db.
  unfold mbind, mret, run_bind, run_ret. cbn.
  destruct (select_active (db w)) as [|p rest] eqn:E.
  - pose proof (proj1 (select_active_nil _) E) as Hn. cbn.
    split_and!; [done|done|].
    intros (r & Hr & Hact). by destruct (Hn r).
  - pose proof (select_active_head _ _ _ E) as (Hp & Hact & Hmin).
    cbn. split_and!.
    + split; [|done]. intros Hnone. by destruct (Hnone p).
    + intros Hnone. by destruct (Hnone p).
    + intros _. exists p. eexists. split_and!; done.
Qed.

Lemma show_ads_to_user_reward_witness :
  ∃ platform message,
    platform ∈ ad_configs sample_db ∧ ac_is_active platform = 1
    ∧ (∀ q, q ∈ ad_configs sample_db → ac_is_active q = 1 →
            ac_priority platform ≤ ac_priority q)
    ∧ (show_ads_to_user 50 1 sample_world).2 = Ok (true, message)
    ∧ users (db (show_ads_to_user 50 1 sample_world).1)
      = map (λ u, if decide (u_id u = 1)
                  then {| u_id := u_id u; u_device_id := u_device_id u;
                          u_created_at := u_created_at u;
                          u_last_active := u_last_active u;
                          u_caption_count := u_caption_count u;
                          u_ad_watched := u_ad_watched u + 1;
                          u_coins := u_coins u + ac_min_coins platform |}
                  else u)
          (users sample_db)
    ∧ ad_events (db (show_ads_to_user 50 1 sample_world).1)
      = ad_events sample_db ++
        [ {| ae_id := next_rowid (map ae_id (ad_events sample_db));
             ae_user_id := 1; ae_platform_id := ac_id platform;
             ae_timestamp := 50;
             ae_coins_earned := ac_min_coins platform |} ]
    ∧ ad_configs (db (show_ads_to_user 50 1 sample_world).1)
      = ad_configs sample_db
    ∧ captions (db (show_ads_to_user 50 1 sample_world).1)
      = captions sample_db.
Proof.
  apply (proj2 (proj2 (show_ads_to_user_reward 50 1 sample_world))).
  exists config_top. split; [|reflexivity].
  apply elem_of_cons; right. apply elem_of_cons; left. reflexivity.
Defined.

(** C6. The required ad count of the gating rule is 1 when the table holds
    no active configuration; otherwise it is the ads-per-use value of an
    active configuration with the lowest priority number. *)
Theorem ads_required_default_or_top d :
  ((∀ r, r ∈ ad_configs d → ac_is_active r ≠ 1) → ads_required_of d = 1)
  ∧ ((∃ r, r ∈ ad_configs d ∧ ac_is_active r = 1) →
     ∃ p, p ∈ ad_configs d ∧ ac_is_active p = 1
          ∧ (∀ q, q ∈ ad_configs d → ac_is_active q = 1 →
                  ac_priority p ≤ ac_priority q)
          ∧ ads_required_of d = ac_ads_per_use p).
Proof.
  unfold ads_required_of, select_ad_req.
  destruct (select_active d) as [|p rest] eqn:E.
  - pose proof (proj1 (select_active_nil _) E) as Hn. split; [done|].
    intros (r & Hr & Hact). by destruct (Hn r).
  - pose proof (select_active_head _ _ _ E) as (Hp & Hact & Hmin).
    split.
    + intros Hnone. by destruct (Hnone p).
    + intros _. exists p. split_and!; done.
Qed.

Lemma ads_required_default_or_top_witness :
  ads_required_of init_db = 1
  ∧ ∃ p, p ∈ ad_configs sample_db ∧ ac_is_active p = 1
         ∧ (∀ q, q ∈ ad_configs sample_db → ac_is_active q = 1 →
                 ac_priority p ≤ ac_priority q)
         ∧ ads_required_of sample_db = ac_ads_per_use p.
Proof.
  split.
  - apply (proj1 (ads_required_default_or_top init_db)).
    intros r Hr. cbn in Hr. by apply elem_of_nil in Hr.
  - apply (proj2 (ads_required_default_or_top sample_db)).
    exists config_top. split; [|reflexivity].
    apply elem_of_cons; right. apply elem_of_cons; left. reflexivity.
Defined.

(** C7. After a configuration is inserted with priority [P] and marked
    active, reading the active configurations in priority order returns it,
    at a position before every active configuration whose priority is
    greater than [P] and after every one whose priority is less than [P]. *)
Theorem inserted_config_read_in_priority_order
    w platform api_key P ads_per_use min_coins :
  let d' :=
    save_configuration (db w) platform api_key P true ads_per_use min_coins in
  let new :=
    {| ac_id := next_rowid (map ac_id (ad_configs (db w)));
       ac_platform_name := platform; ac_api_key := api_key;
       ac_priority := P; ac_is_active := 1;
       ac_ads_per_use := ads_per_use; ac_min_coins := min_coins |} in
  ∃ l, get_active_ad_platforms {| db := d'; ss := ss w |}
       = ({| db := d'; ss := ss w |}, Ok l)
       ∧ new ∈ l
       ∧ (∀ q, q ∈ l ↔ q ∈ ad_configs d' ∧ ac_is_active q = 1)
       ∧ ∀ q i j, l !! i = Some new → l !! j = Some q →
           (P < ac_priority q → (i < j)%nat)
           ∧ (ac_priority q < P → (j < i)%nat).
Proof.
  intros d' new. exists (select_active d'). split; [done|].
  split.
  { apply select_active_elem. split; [|done].
    unfold d', save_configuration. cbn. apply elem_of_app. right. left. }
  split; [apply select_active_elem|].
  intros q i j Hi Hj. split; intros Hlt.
  - by apply (sorted_positions _ _ _ _ _ (select_active_sorted d') Hi Hj).
  - by apply (sorted_positions _ _ _ _ _ (select_active_sorted d') Hj Hi).
Qed.

Lemma inserted_config_read_in_priority_order_witness :
  select_active
    (save_configuration sample_db (lit "Google AdMob") (lit "k4") 2 true 1 5)
  = [config_top; config_new; config_low]
  ∧ (0 < 1)%nat ∧ (1 < 2)%nat.
Proof.
  destruct (inserted_config_read_in_priority_order
              sample_world (lit "Google AdMob") (lit "k4") 2 1 5)
    as (l & Hl & _ & _ & Hpos).
  injection Hl as <-.
  split; [reflexivity|]. split.
  - apply (proj2 (Hpos config_top 1%nat 0%nat eq_refl eq_refl)).
    reflexivity.
  - apply (proj1 (Hpos config_low 1%nat 2%nat eq_refl eq_refl)).
    reflexivity.
Defined.

(** ** The main page *)

(** *** No script run assigns [st.session_state.user_id] *)

Lemma keeps_ret {A} (a : A) : keeps_user_id (mret a).
Proof. by intros w. Qed.

Lemma keeps_bind {A B} (m : run A) (f : A → run B) :
  keeps_user_id m → (∀ a, keeps_user_id (f a)) → keeps_user_id (m ≫= f).
Proof.
  intros Hm Hf w. unfold mbind, run_bind. specialize (Hm w).
  destruct (m w) as [w' [a|e]]; cbn in *; [|done].
  by rewrite Hf.
Qed.

Lemma keeps_raise {A} e : keeps_user_id (@raise A e).
Proof. by intros w. Qed.

Lemma keeps_lift {A} (r : res A) : keeps_user_id (lift r).
Proof. by intros w. Qed.

Lemma keeps_get_db : keeps_user_id get_db.
Proof. by intros w. Qed.

Lemma keeps_put_db d : keeps_user_id (put_db d).
Proof. by intros w. Qed.

Lemma keeps_attr {A} name (field : session_state → option A) :
  keeps_user_id (attr name field).
Proof. intros w. unfold attr. by destruct (field (ss w)). Qed.

Lemma keeps_has_attr {A} (field : session_state → option A) :
  keeps_user_id (has_attr field).
Proof. by intros w. Qed.

Lemma keeps_set_device_id v : keeps_user_id (set_device_id v).
Proof. by intros w. Qed.

Lemma keeps_set_coins v : keeps_user_id (set_coins v).
Proof. by intros w. Qed.

Lemma keeps_set_caption_count v : keeps_user_id (set_caption_count v).
Proof. by intros w. Qed.

Lemma keeps_set_ads_watched v : keeps_user_id (set_ads_watched v).
Proof. by intros w. Qed.

Lemma keeps_set_current_ad v : keeps_user_id (set_current_ad v).
Proof. by intros w. Qed.

Lemma keeps_if {A} (b : bool) (m1 m2 : run A) :
  keeps_user_id m1 → keeps_user_id m2 → keeps_user_id (if b then m1 else m2).
Proof. by destruct b. Qed.

Lemma keeps_for_each {A} (l : list A) (body : A → run unit) :
  (∀ x, keeps_user_id (body x)) → keeps_user_id (for_each l body).
Proof.
  intros Hbody. induction l as [|x l IH]; cbn [for_each].
  - apply keeps_ret.
  - apply keeps_bind; [apply Hbody|by intros _].
Qed.

Create HintDb keeps discriminated.
#[local] Hint Resolve keeps_ret keeps_raise keeps_lift keeps_get_db
  keeps_put_db keeps_attr keeps_has_attr keeps_set_device_id keeps_set_coins
  keeps_set_caption_count keeps_set_ads_watched keeps_set_current_ad
  : keeps.

Ltac keeps_step :=
  match goal with
  | |- keeps_user_id (_ ≫= _) => apply keeps_bind; [|intros ?]
  | |- keeps_user_id (if _ then _ else _) => apply keeps_if
  | |- keeps_user_id (for_each _ _) => apply keeps_for_each; intros ?
  | |- keeps_user_id (match ?x with _ => _ end) => destruct x
  | |- keeps_user_id _ => solve [auto with keeps]
  end.

Lemma keeps_show_ads_to_user now uid : keeps_user_id (show_ads_to_user now uid).
Proof. unfold show_ads_to_user, get_active_ad_platforms. repeat keeps_step. Qed.

Lemma keeps_initialize_session inp : keeps_user_id (initialize_session inp).
Proof. unfold initialize_session. repeat keeps_step. Qed.

Lemma keeps_watch_ad inp : keeps_user_id (watch_ad inp).
Proof.
  unfold watch_ad. apply keeps_bind; [auto with keeps|intros uid].
  apply keeps_bind; [apply keeps_show_ads_to_user|intros [success message]].
  repeat keeps_step.
Qed.

Lemma keeps_generate capitalize inp file :
  keeps_user_id (generate capitalize inp file).
Proof.
  unfold generate. apply keeps_bind; [auto with keeps|intros [caption tags]].
  repeat keeps_step.
Qed.

Lemma keeps_generate_disabled required :
  keeps_user_id (generate_disabled required).
Proof. unfold generate_disabled. repeat keeps_step. Qed.

Lemma keeps_needs_ads : keeps_user_id needs_ads.
Proof. unfold needs_ads. repeat keeps_step. Qed.

Lemma keeps_main_user_app capitalize inp :
  keeps_user_id (main_user_app capitalize inp).
Proof.
  unfold main_user_app.
  apply keeps_bind; [apply keeps_initialize_session|intros _].
  do 2 (apply keeps_bind; [auto with keeps|intros _]).
  destruct (uploaded_file inp) as [file|]; [|auto with keeps].
  apply keeps_bind; [auto with keeps|intros d].
  apply keeps_bind; [apply keeps_needs_ads|intros gated].
  apply keeps_bind.
  - apply keeps_if; [|auto with keeps]. apply keeps_for_each. intros i.
    apply keeps_if; [apply keeps_watch_ad|auto with keeps].
  - intros _. apply keeps_bind; [apply keeps_generate_disabled|intros b].
    apply keeps_if; [apply keeps_generate|auto with keeps].
Qed.

Lemma reachable_user_id_unset capitalize s :
  session_reachable capitalize s → user_id s = None.
Proof.
  induction 1 as [|w inp _ IH]; [done|].
  by rewrite keeps_main_user_app.
Qed.

(** After its first run a reachable session holds the four attributes that
    "Initialize session" assigns. *)
Lemma initialize_session_sets inp w :
  device_id (ss w) = None →
  let s' := ss (initialize_session inp w).1 in
  device_id s' = Some (time_hash inp) ∧ coins s' = Some 0
  ∧ caption_count s' = Some 0 ∧ ads_watched s' = Some 0.
Proof.
  intros Hnew. unfold initialize_session, has_attr.
  unfold mbind, mret, run_bind, run_ret. rewrite Hnew. cbn.
  destruct (insert_user _ _ _); cbn; done.
Qed.

Lemma watch_ad_unset inp w :
  user_id (ss w) = None →
  watch_ad inp w = (w, Raise (AttributeError "user_id")).
Proof.
  intros Hnone. unfold watch_ad, attr, mbind, run_bind. by rewrite Hnone.
Qed.

Lemma generate_unset capitalize inp file w caption tags :
  user_id (ss w) = None →
  generate_caption capitalize (generated_text file) (style inp)
  = Ok (caption, tags) →
  generate capitalize inp file w = (w, Raise (AttributeError "user_id")).
Proof.
  intros Hnone Hgen. unfold generate, lift, attr, mbind, run_bind.
  rewrite Hgen. by rewrite Hnone.
Qed.

(** What the generate handler does in a session that does hold a user id,
    a device id and a caption counter. *)
Lemma generate_with_user_id capitalize inp file w uid device count caption tags :
  user_id (ss w) = Some uid →
  device_id (ss w) = Some device →
  caption_count (ss w) = Some count →
  generate_caption capitalize (generated_text file) (style inp)
  = Ok (caption, tags) →
  generate capitalize inp file w
  = ({| db := update_caption_count
                (insert_caption (db w) uid (image_hash file) caption tags
                   (now inp))
                (now inp) device;
        ss := {| device_id := device_id (ss w); coins := coins (ss w);
                 caption_count := Some (count + 1);
                 ads_watched := ads_watched (ss w);
                 user_id := user_id (ss w);
                 current_ad := current_ad (ss w) |} |}, Ok tt).
Proof.
  intros Huid Hdev Hcount Hgen.
  destruct w as [d [dev bal cnt watched u cur]]. cbn in Huid, Hdev, Hcount.
  subst dev cnt u.
  unfold generate, lift, attr, mbind, run_bind. rewrite Hgen. reflexivity.
Qed.

(** C9. In every session that the main page can produce, a caption
    generation that succeeds is not persisted: the handler raises
    [AttributeError] on [st.session_state.user_id] before its INSERT, so no
    caption row is appended and no counter, in the store or in the session,
    is incremented. *)
Theorem generate_raises_before_persisting
    capitalize w inp file caption tags :
  session_reachable capitalize (ss w) →
  generate_caption capitalize (generated_text file) (style inp)
  = Ok (caption, tags) →
  generate capitalize inp file w = (w, Raise (AttributeError "user_id")).
Proof.
  intros Hreach Hgen. eapply generate_unset; [|done].
  by eapply reachable_user_id_unset.
Qed.

Lemma generate_raises_before_persisting_witness :
  generate capitalize_ascii generate_click sample_upload
    (main_user_app capitalize_ascii first_visit opening_world).1
  = ((main_user_app capitalize_ascii first_visit opening_world).1,
     Raise (AttributeError "user_id"))
  ∧ captions
      (db (main_user_app capitalize_ascii generate_click
             (main_user_app capitalize_ascii first_visit opening_world).1).1)
    = []
  ∧ map u_caption_count
      (users
         (db (main_user_app capitalize_ascii generate_click
                (main_user_app capitalize_ascii first_visit
                   opening_world).1).1))
    = [0].
Proof.
  split; [|split; reflexivity].
  apply (generate_raises_before_persisting capitalize_ascii
           (main_user_app capitalize_ascii first_visit opening_world).1
           generate_click sample_upload
           (capitalize_ascii beach_text) (hashtags_of beach_text)).
  - apply (reach_run capitalize_ascii opening_world first_visit).
    apply reach_new.
  - vm_compute. reflexivity.
Defined.

(** C10. No session that the main page can produce holds
    [st.session_state.user_id]: "Initialize session" assigns the device id
    and the three counters only.  The two places that read the attribute,
    the ad handler and the generate handler, therefore raise
    [AttributeError] and leave the world as it was. *)
Theorem session_user_id_never_set capitalize s :
  session_reachable capitalize s →
  user_id s = None
  ∧ (∀ d inp,
       watch_ad inp {| db := d; ss := s |}
       = ({| db := d; ss := s |}, Raise (AttributeError "user_id")))
  ∧ (∀ d inp file caption tags,
       generate_caption capitalize (generated_text file) (style inp)
       = Ok (caption, tags) →
       generate capitalize inp file {| db := d; ss := s |}
       = ({| db := d; ss := s |}, Raise (AttributeError "user_id"))).
Proof.
  intros Hnone%reachable_user_id_unset. split_and!; [done|..].
  - intros d inp. by apply watch_ad_unset.
  - intros d inp file caption tags Hgen. by eapply generate_unset.
Qed.

Lemma session_user_id_never_set_witness :
  device_id (ss (main_user_app capitalize_ascii first_visit opening_world).1)
  = Some (lit "0a1b2c3d4e5f")
  ∧ user_id (ss (main_user_app capitalize_ascii first_visit opening_world).1)
    = None
  ∧ main_user_app capitalize_ascii generate_click
      (main_user_app capitalize_ascii first_visit opening_world).1
    = ((main_user_app capitalize_ascii first_visit opening_world).1,
       Raise (AttributeError "user_id")).
Proof.
  split; [reflexivity|]. split; [|reflexivity].
  apply (session_user_id_never_set capitalize_ascii
           (ss (main_user_app capitalize_ascii first_visit opening_world).1)).
  apply (reach_run capitalize_ascii opening_world first_visit).
  apply reach_new.
Defined.

(** ** The first caption request of a session *)

Lemma bind_returns {A B} (m : run A) (f : A → run B) w w' a :
  m w = (w', Ok a) → (m ≫= f) w = f a w'.
Proof. intros H. unfold mbind, run_bind. by rewrite H. Qed.

Lemma bind_raises {A B} (m : run A) (f : A → run B) w w' e :
  m w = (w', Raise e) → (m ≫= f) w = (w', Raise e).
Proof. intros H. unfold mbind, run_bind. by rewrite H. Qed.

Lemma initialize_session_known inp w :
  device_id (ss w) ≠ None → initialize_session inp w = (w, Ok tt).
Proof.
  intros Hdev. unfold initialize_session, has_attr, mbind, run_bind.
  destruct (device_id (ss w)) eqn:E; [|done]. by rewrite bool_decide_true.
Qed.

Lemma generate_initialized capitalize inp file d device :
  (generate capitalize inp file
     {| db := d; ss := initialized_session device |}).1
  = {| db := d; ss := initialized_session device |}.
Proof.
  destruct (generate_caption capitalize (generated_text file) (style inp))
    as [[caption tags]|e] eqn:Hgen.
  - by erewrite generate_unset.
  - unfold generate, lift, mbind, run_bind. by rewrite Hgen.
Qed.

Lemma main_user_app_initialized capitalize inp :
  idle_when_initialized (main_user_app capitalize inp).
Proof.
  intros d device. unfold main_user_app.
  erewrite bind_returns by by apply initialize_session_known.
  unfold attr, get_db, needs_ads, generate_disabled, mbind, mret, run_bind,
    run_ret.
  cbn. destruct (uploaded_file inp) as [file|]; [|done]. cbn.
  rewrite (bool_decide_false (0 > 0)) by lia. cbn.
  rewrite (bool_decide_true (0 `mod` 3 = 0)) by done. cbn.
  destruct (st_button inp GenerateCaption _); [|done].
  apply generate_initialized.
Qed.

Lemma initialize_session_new inp w :
  ss w = new_session →
  initialize_session inp w
  = match insert_user (db w) (time_hash inp) (now inp) with
    | Ok d' =>
        ({| db := d'; ss := initialized_session (time_hash inp) |}, Ok tt)
    | Raise e =>
        ({| db := db w; ss := initialized_session (time_hash inp) |}, Raise e)
    end.
Proof.
  destruct w as [d s]. cbn. intros ->.
  unfold initialize_session, has_attr, mbind, mret, run_bind, run_ret. cbn.
  by destruct (insert_user d (time_hash inp) (now inp)).
Qed.

Lemma main_user_app_after_init capitalize inp w w1 :
  initialize_session inp w = (w1, Ok tt) → device_id (ss w1) ≠ None →
  main_user_app capitalize inp w = main_user_app capitalize inp w1.
Proof.
  intros Hinit Hdev. unfold main_user_app.
  erewrite (bind_returns (initialize_session inp) _ w) by done.
  by erewrite (bind_returns (initialize_session inp) _ w1)
    by by apply initialize_session_known.
Qed.

Lemma insert_user_fresh d device now :
  device ∉ map u_device_id (users d) →
  insert_user d device now
  = Ok (set_users d (users d ++ [new_user_row d device now])).
Proof. intros Hfresh. unfold insert_user. by rewrite decide_False. Qed.

Lemma insert_user_taken d device now :
  device ∈ map u_device_id (users d) →
  insert_user d device now = Raise IntegrityError.
Proof. intros Htaken. unfold insert_user. by rewrite decide_True. Qed.

Lemma main_user_app_new_session capitalize inp w :
  ss w = new_session →
  ∃ d', (main_user_app capitalize inp w).1
        = {| db := d'; ss := initialized_session (time_hash inp) |}.
Proof.
  intros Hnew. pose proof (initialize_session_new inp w Hnew) as Hinit.
  destruct (insert_user (db w) (time_hash inp) (now inp)) as [d'|e].
  - rewrite (main_user_app_after_init _ _ _ _ Hinit) by done.
    rewrite main_user_app_initialized. by eexists.
  - unfold main_user_app. erewrite bind_raises by done. by eexists.
Qed.

Lemma reachable_session_shape capitalize s :
  session_reachable capitalize s →
  s = new_session ∨ ∃ device, s = initialized_session device.
Proof.
  induction 1 as [|w inp _ [Hnew|[device Hinit]]]; [by left|right..].
  - destruct (main_user_app_new_session capitalize inp w Hnew) as [d' ->].
    by eexists.
  - destruct w as [d s]. cbn in Hinit. subst s.
    rewrite main_user_app_initialized. by eexists.
Qed.

Lemma initialized_session_gate d device required :
  needs_ads {| db := d; ss := initialized_session device |}
  = ({| db := d; ss := initialized_session device |}, Ok false)
  ∧ generate_disabled required {| db := d; ss := initialized_session device |}
    = ({| db := d; ss := initialized_session device |},
       Ok (bool_decide (0 < required))).
Proof.
  unfold needs_ads, generate_disabled, attr, mbind, mret, run_bind, run_ret.
  cbn. rewrite (bool_decide_false (0 > 0)) by lia.
  by rewrite (bool_decide_true (0 `mod` 3 = 0)) by done.
Qed.

Lemma main_user_app_blocked capitalize inp d device :
  0 < ads_required_of d →
  main_user_app capitalize inp {| db := d; ss := initialized_session device |}
  = ({| db := d; ss := initialized_session device |}, Ok tt).
Proof.
  intros Hreq. unfold main_user_app.
  erewrite bind_returns by by apply initialize_session_known.
  unfold attr, get_db, needs_ads, generate_disabled, mbind, mret, run_bind,
    run_ret.
  cbn. destruct (uploaded_file inp) as [file|]; [|done]. cbn.
  rewrite (bool_decide_false (0 > 0)) by lia. cbn.
  rewrite (bool_decide_true (0 `mod` 3 = 0)) by done. cbn.
  rewrite (bool_decide_true (0 < ads_required_of d)) by done.
  unfold st_button. by rewrite andb_false_r.
Qed.

Lemma ads_required_of_configs d d' :
  ad_configs d' = ad_configs d → ads_required_of d' = ads_required_of d.
Proof.
  intros E. unfold ads_required_of, select_ad_req, select_active.
  by rewrite E.
Qed.

(** C2 (defect of the code).  The claim lets the first request of a session
    through; the code blocks it.  In every session that the page produces,
    a run with a picture uploaded and a click on "Generate Caption" while
    the required ad count is positive (it is 1 when no platform is
    configured) finds the session at caption count 0, so it is request
    number 1; the block that offers the "Watch Ad" buttons is not entered,
    the generate button is disabled, and the run is the run without the
    click: no caption is generated or stored. *)
Theorem first_request_blocked_without_ad_button capitalize w inp file :
  session_reachable capitalize (ss w) →
  uploaded_file inp = Some file →
  clicked inp = Some GenerateCaption →
  0 < ads_required_of (db w) →
  let w' := (main_user_app capitalize inp w).1 in
  caption_count (ss w') = Some 0
  ∧ needs_ads w' = (w', Ok false)
  ∧ generate_disabled (ads_required_of (db w')) w' = (w', Ok true)
  ∧ main_user_app capitalize inp w
    = main_user_app capitalize (without_click inp) w
  ∧ captions (db w') = captions (db w).
Proof.
  intros Hs _ _ Hreq.
  assert (∀ d device,
            0 < ads_required_of d →
            let w1 := {| db := d; ss := initialized_session device |} in
            caption_count (ss w1) = Some 0
            ∧ needs_ads w1 = (w1, Ok false)
            ∧ generate_disabled (ads_required_of (db w1)) w1 = (w1, Ok true))
    as Hgate.
  { intros d device Hd w1.
    destruct (initialized_session_gate d device (ads_required_of d))
      as [Hn Hg].
    split_and!; [done|done|]. unfold w1. cbn [db]. rewrite Hg.
    by rewrite bool_decide_true. }
  apply reachable_session_shape in Hs as [Hnew|[device Hinit]].
  - pose proof (initialize_session_new inp w Hnew) as Hrun.
    pose proof (initialize_session_new (without_click inp) w Hnew) as Hrun'.
    cbn [without_click time_hash now] in Hrun'.
    destruct (insert_user (db w) (time_hash inp) (now inp)) as [d'|e] eqn:Hins.
    + assert (ad_configs d' = ad_configs (db w) ∧ captions d' = captions (db w))
        as [Hcfg Hcap].
      { unfold insert_user in Hins. case_decide; [done|].
        by injection Hins as <-. }
      assert (0 < ads_required_of d') as Hreq'
        by by rewrite (ads_required_of_configs _ _ Hcfg).
      rewrite (main_user_app_after_init _ _ _ _ Hrun) by done.
      rewrite (main_user_app_after_init _ _ _ _ Hrun') by done.
      rewrite !main_user_app_blocked by done. cbn [fst].
      destruct (Hgate d' (time_hash inp) Hreq') as (? & ? & ?).
      split_and!; done.
    + unfold main_user_app.
      erewrite (bind_raises (initialize_session inp)) by exact Hrun.
      erewrite (bind_raises (initialize_session (without_click inp)))
        by exact Hrun'.
      cbn [fst]. destruct (Hgate (db w) (time_hash inp) Hreq) as (? & ? & ?).
      split_and!; done.
  - destruct w as [d s]. cbn in Hinit, Hreq. subst s. cbn [db].
    rewrite !main_user_app_blocked by done. cbn [fst].
    destruct (Hgate d device Hreq) as (? & ? & ?).
    split_and!; done.
Qed.

Lemma first_request_blocked_without_ad_button_witness :
  ads_required_of init_db = 1
  ∧ let w' := (main_user_app capitalize_ascii generate_click new_world).1 in
    caption_count (ss w') = Some 0
    ∧ needs_ads w' = (w', Ok false)
    ∧ generate_disabled (ads_required_of (db w')) w' = (w', Ok true)
    ∧ main_user_app capitalize_ascii generate_click new_world
      = main_user_app capitalize_ascii (without_click generate_click)
          new_world
    ∧ captions (db w') = captions (db new_world).
Proof.
  split; [reflexivity|].
  apply (first_request_blocked_without_ad_button capitalize_ascii new_world
           generate_click sample_upload).
  - apply reach_new.
  - reflexivity.
  - reflexivity.
  - reflexivity.
Defined.

(** ** The coin ledger *)

Lemma next_rowid_fresh ids x : x ∈ ids → x < next_rowid ids.
Proof.
  unfold next_rowid. induction 1 as [x ids|x y ids _ IH]; cbn [foldr]; lia.
Qed.

Lemma coins_earned_by_events d d' uid :
  ad_events d' = ad_events d → coins_earned_by d' uid = coins_earned_by d uid.
Proof. unfold coins_earned_by. by intros ->. Qed.

Lemma ads_logged_for_events d d' uid :
  ad_events d' = ad_events d → ads_logged_for d' uid = ads_logged_for d uid.
Proof. unfold ads_logged_for. by intros ->. Qed.

Lemma sum_app (l1 l2 : list Z) :
  foldr Z.add 0 (l1 ++ l2) = foldr Z.add 0 l1 + foldr Z.add 0 l2.
Proof. induction l1 as [|x l1 IH]; cbn [app foldr]; lia. Qed.

Lemma coins_earned_by_insert d uid pid earned now x :
  coins_earned_by (insert_ad_event d uid pid earned now) x
  = coins_earned_by d x + (if decide (x = uid) then earned else 0).
Proof.
  unfold coins_earned_by, insert_ad_event. cbn [ad_events].
  rewrite filter_app, map_app, sum_app. f_equal.
  rewrite filter_cons, filter_nil. cbn [ae_user_id].
  destruct (decide (uid = x)) as [->|Hne].
  - rewrite decide_True by done. cbn. lia.
  - rewrite decide_False by done. done.
Qed.

Lemma ads_logged_for_insert d uid pid earned now x :
  ads_logged_for (insert_ad_event d uid pid earned now) x
  = ads_logged_for d x + (if decide (x = uid) then 1 else 0).
Proof.
  unfold ads_logged_for, insert_ad_event. cbn [ad_events].
  rewrite filter_app, length_app, Nat2Z.inj_add. f_equal.
  rewrite filter_cons, filter_nil. cbn [ae_user_id].
  destruct (decide (uid = x)) as [->|Hne].
  - by rewrite decide_True.
  - by rewrite decide_False.
Qed.

Lemma no_events_for d uid :
  events_owned d → uid ∉ map u_id (users d) →
  coins_earned_by d uid = 0 ∧ ads_logged_for d uid = 0.
Proof.
  intros Hown Hfresh. unfold coins_earned_by, ads_logged_for.
  assert (filter (λ e, ae_user_id e = uid) (ad_events d) = []) as ->; [|done].
  destruct (filter _ _) as [|e l] eqn:E; [done|].
  assert (e ∈ filter (λ e, ae_user_id e = uid) (ad_events d)) as Hin
    by (rewrite E; left).
  apply list_elem_of_filter in Hin as [<- He]. by destruct Hfresh; apply Hown.
Qed.

Lemma show_ads_db now uid w :
  db (show_ads_to_user now uid w).1
  = match select_active (db w) with
    | [] => db w
    | p :: _ =>
        insert_ad_event (update_reward (db w) (ac_min_coins p) uid)
          uid (ac_id p) (ac_min_coins p) now
    end.
Proof.
  unfold show_ads_to_user, get_active_ad_platforms, get_db.
  unfold mbind, mret, run_bind, run_ret. cbn.
  by destruct (select_active (db w)).
Qed.

Lemma save_changes_tables d edited :
  users (save_changes d edited) = users d
  ∧ ad_events (save_changes d edited) = ad_events d.
Proof.
  unfold save_changes. revert d.
  induction edited as [|row edited IH]; intros d; [done|].
  cbn [foldl]. destruct (IH (update_config d row)) as [-> ->]. done.
Qed.

Lemma elem_of_map {A B} (f : A → B) (l : list A) y :
  y ∈ map f l ↔ ∃ x, y = f x ∧ x ∈ l.
Proof. apply (list_elem_of_fmap f). Qed.

Lemma ids_of_mapped (f : user_row → user_row) us :
  (∀ u, u_id (f u) = u_id u) → map u_id (map f us) = map u_id us.
Proof.
  intros Hf. rewrite map_map. apply map_ext. intros u. apply Hf.
Qed.

Lemma invariant_register d granted device now d' :
  ledger_invariant d granted → insert_user d device now = Ok d' →
  ledger_invariant d' granted.
Proof.
  intros (Hbal & Hown & Hzero). unfold insert_user.
  case_decide; [done|]. intros [= <-].
  set (fresh := next_rowid (map u_id (users d))).
  assert (fresh ∉ map u_id (users d)) as Hfresh.
  { intros Hin%next_rowid_fresh. unfold fresh in Hin. lia. }
  split_and!.
  - intros u Hu. cbn [users] in Hu.
    rewrite (coins_earned_by_events d), (ads_logged_for_events d) by done.
    apply elem_of_app in Hu as [Hu|Hu]; [by apply Hbal|].
    apply list_elem_of_singleton in Hu as ->. cbn.
    destruct (no_events_for d fresh Hown Hfresh) as [-> ->].
    by rewrite (Hzero fresh Hfresh).
  - intros e He. cbn [users ad_events] in *. rewrite map_app.
    apply elem_of_app. left. by apply Hown.
  - intros x Hx. apply Hzero. intros Hin. apply Hx. cbn [users].
    rewrite map_app. apply elem_of_app. by left.
Qed.

Lemma invariant_reward d granted reward uid pid now :
  ledger_invariant d granted → uid ∈ map u_id (users d) →
  ledger_invariant
    (insert_ad_event (update_reward d reward uid) uid pid reward now) granted.
Proof.
  intros (Hbal & Hown & Hzero) Huid.
  assert (map u_id
            (map (λ u, if decide (u_id u = uid) then credit reward u else u)
               (users d)) = map u_id (users d)) as Hids.
  { apply ids_of_mapped. intros u. by case_decide. }
  split_and!.
  - intros u' Hu'. rewrite coins_earned_by_insert, ads_logged_for_insert.
    cbn [insert_ad_event update_reward set_users users] in Hu'.
    apply elem_of_map in Hu' as (u & -> & Hu).
    destruct (Hbal u Hu) as [Hc Hw].
    rewrite (coins_earned_by_events d), (ads_logged_for_events d) by done.
    destruct (decide (u_id u = uid)) as [E|E]; cbn.
    + rewrite !decide_True by done. lia.
    + rewrite !decide_False by done. lia.
  - intros e He. cbn [insert_ad_event update_reward set_users users ad_events]
      in *. rewrite Hids.
    apply elem_of_app in He as [He|He]; [by apply Hown|].
    by apply list_elem_of_singleton in He as ->.
  - intros x Hx. apply Hzero.
    cbn [insert_ad_event update_reward set_users users] in Hx.
    by rewrite Hids in Hx.
Qed.

Lemma invariant_same_ledger d d' granted :
  ledger_invariant d granted →
  ad_events d' = ad_events d →
  (∃ f : user_row → user_row,
     users d' = map f (users d)
     ∧ ∀ u, u_id (f u) = u_id u ∧ u_coins (f u) = u_coins u
            ∧ u_ad_watched (f u) = u_ad_watched u) →
  ledger_invariant d' granted.
Proof.
  intros (Hbal & Hown & Hzero) Hev (f & Hus & Hf).
  assert (map u_id (users d') = map u_id (users d)) as Hids.
  { rewrite Hus. apply ids_of_mapped. intros u. apply Hf. }
  split_and!.
  - intros u' Hu'. rewrite Hus in Hu'.
    apply elem_of_map in Hu' as (u & -> & Hu).
    rewrite (coins_earned_by_events d), (ads_logged_for_events d) by done.
    destruct (Hf u) as (-> & -> & ->). by apply Hbal.
  - intros e He. rewrite Hev in He. rewrite Hids. by apply Hown.
  - intros x Hx. apply Hzero. by rewrite <- Hids.
Qed.

Lemma invariant_unchanged_users d d' granted :
  ledger_invariant d granted →
  ad_events d' = ad_events d → users d' = users d →
  ledger_invariant d' granted.
Proof.
  intros Hinv Hev Hus. apply (invariant_same_ledger d); [done..|].
  exists id. by rewrite map_id.
Qed.

Lemma invariant_step d d' granted :
  ledger_invariant d granted → db_step d d' → ledger_invariant d' granted.
Proof.
  intros Hinv Hstep.
  destruct Hstep as [d device now d' Hins|w now uid Huid
    |d uid img_hash caption tags now device
    |d platform api_key priority is_active ads_per_use min_coins
    |d edited].
  - by eapply invariant_register.
  - rewrite show_ads_db. destruct (select_active (db w)); [done|].
    by apply invariant_reward.
  - apply (invariant_same_ledger d); [done..|].
    exists (λ u, if decide (u_device_id u = device) then touch now u else u).
    split; [done|]. intros u. by case_decide.
  - by apply (invariant_unchanged_users d).
  - destruct (save_changes_tables d edited) as [Hus Hev].
    by apply (invariant_unchanged_users d).
Qed.

Lemma invariant_grant d granted amount uid :
  ledger_invariant d granted → uid ∈ map u_id (users d) →
  ledger_invariant (add_coins d amount uid)
    (λ x, if decide (x = uid) then granted x + amount else granted x).
Proof.
  intros (Hbal & Hown & Hzero) Huid.
  assert (map u_id (users (add_coins d amount uid)) = map u_id (users d))
    as Hids.
  { apply ids_of_mapped. intros u. by case_decide. }
  split_and!.
  - intros u' Hu'. cbn [add_coins set_users users] in Hu'.
    apply elem_of_map in Hu' as (u & -> & Hu).
    destruct (Hbal u Hu) as [Hc Hw].
    rewrite (coins_earned_by_events d), (ads_logged_for_events d) by done.
    destruct (decide (u_id u = uid)) as [E|E]; cbn.
    + rewrite decide_True by done. lia.
    + by rewrite decide_False.
  - intros e He. rewrite Hids. by apply Hown.
  - intros x Hx. rewrite Hids in Hx.
    rewrite decide_False by (by intros ->). by apply Hzero.
Qed.

Lemma reachable_invariant d granted :
  reachable d granted → ledger_invariant d granted.
Proof.
  induction 1 as [|d d' granted _ IH Hstep|d granted amount uid _ IH Huid].
  - split_and!; [intros u Hu|intros e He|done].
    + by apply elem_of_nil in Hu.
    + by apply elem_of_nil in He.
  - by eapply invariant_step.
  - by apply invariant_grant.
Qed.

(** C1 (amended). In every reachable database state each user's ad-watched
    counter equals the number of that user's ad events, and the coin balance
    equals the sum of the coins earned in those events plus the total that
    the admin flow has granted to that user.  Every operation preserves
    this: a completed ad for a registered user, a registration, the
    persistence of a caption, the configuration forms, and the admin grant,
    which adds to the balance without an ad event. *)
Theorem ledger_matches_events_and_grants d granted u :
  reachable d granted → u ∈ users d →
  u_ad_watched u = ads_logged_for d (u_id u)
  ∧ u_coins u = coins_earned_by d (u_id u) + granted (u_id u).
Proof.
  intros (Hbal & _)%reachable_invariant Hu. destruct (Hbal u Hu). done.
Qed.

Lemma granted_db_reachable : reachable granted_db ten_to_first.
Proof.
  change granted_db
    with (add_coins
            (db (main_user_app capitalize_ascii first_visit opening_world).1)
            10 1).
  apply (reachable_grant _ (λ _, 0) 10 1).
  - apply (reachable_step zero_ads_db).
    + apply (reachable_step init_db); [apply reachable_init|].
      apply step_save_configuration.
    + apply (step_register _ (lit "0a1b2c3d4e5f") 10). reflexivity.
  - cbn. left.
Defined.

Lemma busy_db_reachable : reachable busy_db ten_to_first.
Proof.
  apply (reachable_grant two_captions_db (λ _, 0) 10 1).
  - apply (reachable_step one_caption_db); [|apply step_caption].
    apply (reachable_step two_events_db); [|apply step_caption].
    apply (reachable_step one_event_db).
    + apply (reachable_step two_users_db).
      * apply (reachable_step one_user_db).
        -- apply (reachable_step two_platforms_db).
           ++ apply (reachable_step
                       (save_configuration init_db (lit "Unity Ads") (lit "k1")
                          3 true 2 4)).
              ** apply (reachable_step init_db); [apply reachable_init|].
                 apply step_save_configuration.
              ** apply step_save_configuration.
           ++ apply (step_register _ (lit "0a1b2c3d4e5f") 10). reflexivity.
        -- apply (step_register _ (lit "ffffffffffff") 15). reflexivity.
      * apply (step_ad_completed {| db := two_users_db; ss := new_session |}
                 50 1).
        apply (bool_decide_unpack _). vm_compute. exact I.
    + apply (step_ad_completed {| db := one_event_db; ss := new_session |}
               60 2).
      apply (bool_decide_unpack _). vm_compute. exact I.
  - apply (bool_decide_unpack _). vm_compute. exact I.
Defined.

Lemma ledger_matches_events_and_grants_witness :
  u_ad_watched granted_user = ads_logged_for granted_db (u_id granted_user)
  ∧ u_coins granted_user
    = coins_earned_by granted_db (u_id granted_user)
      + ten_to_first (u_id granted_user).
Proof.
  apply (ledger_matches_events_and_grants granted_db ten_to_first
           granted_user).
  - apply granted_db_reachable.
  - left.
Defined.

(** C1 as stated fails: after a device has registered and the admin has
    granted it ten coins, its balance is 10 while its ad events sum to 0. *)
Lemma admin_grant_unbalances_ledger :
  (∃ granted, reachable granted_db granted)
  ∧ granted_user ∈ users granted_db
  ∧ u_coins granted_user = 10
  ∧ coins_earned_by granted_db (u_id granted_user) = 0
  ∧ ¬ ledger_balanced granted_db.
Proof.
  split_and!; [eexists; apply granted_db_reachable|left|done|done|].
  intros Hbal. destruct (Hbal granted_user) as [Hcoins _]; [left|].
  discriminate Hcoins.
Qed.

(** ** The settings file: writing and reading back *)

Ltac n_arith := zify; Z.to_euclidean_division_equations; lia.

Lemma hex_value_digit n : (n < 16)%N → hex_value (hex_digit n) = Some n.
Proof.
  intros Hn. unfold hex_digit, hex_value.
  destruct (n <? 10)%N eqn:E.
  - apply N.ltb_lt in E.
    replace ((48 <=? 48 + n) && (48 + n <=? 57))%N with true.
    + f_equal. lia.
    + symmetry. apply andb_true_iff. split; apply N.leb_le; lia.
  - apply N.ltb_ge in E.
    replace ((48 <=? 87 + n) && (87 + n <=? 57))%N with false.
    + replace ((97 <=? 87 + n) && (87 + n <=? 102))%N with true.
      * f_equal. lia.
      * symmetry. apply andb_true_iff. split; apply N.leb_le; lia.
    + symmetry. apply andb_false_iff. right. apply N.leb_gt. lia.
Qed.

Lemma hex4_escape c :
  (c < 65536)%N →
  hex4 (hex_digit ((c / 4096) `mod` 16)) (hex_digit ((c / 256) `mod` 16))
       (hex_digit ((c / 16) `mod` 16)) (hex_digit (c `mod` 16)) = Some c.
Proof.
  intros Hc. unfold hex4.
  rewrite !hex_value_digit by n_arith. cbn. f_equal. n_arith.
Qed.

Lemma scan_string_u h1 h2 h3 h4 s3 :
  scan_string (92 :: 117 :: h1 :: h2 :: h3 :: h4 :: s3)%N
  = match hex4 h1 h2 h3 h4 with
    | None => None
    | Some hi =>
        match s3 with
        | b :: u :: l1 :: l2 :: l3 :: l4 :: s4 =>
            match hex4 l1 l2 l3 l4 with
            | Some lo =>
                if is_high_surrogate hi && (b =? 92)%N
                   && (u =? 117)%N && is_low_surrogate lo
                then push (65536 + (hi - 55296) * 1024 + (lo - 56320))%N
                       (scan_string s4)
                else push hi (scan_string s3)
            | None => push hi (scan_string s3)
            end
        | _ => push hi (scan_string s3)
        end
    end.
Proof. reflexivity. Qed.

Lemma scan_string_plain_u c t :
  (c < 65536)%N → is_high_surrogate c = false →
  scan_string (escape_u c ++ t) = push c (scan_string t).
Proof.
  intros Hc Hhi. unfold escape_u. cbn [app].
  rewrite scan_string_u, hex4_escape by done.
  destruct t as [|b [|u [|l1 [|l2 [|l3 [|l4 t]]]]]]; try reflexivity.
  destruct (hex4 l1 l2 l3 l4); [|done]. by rewrite Hhi.
Qed.

Lemma scan_string_pair c t :
  (65536 ≤ c)%N → (c < 1114112)%N →
  scan_string (escape_u (55296 + (c - 65536) / 1024)
               ++ escape_u (56320 + (c - 65536) `mod` 1024) ++ t)
  = push c (scan_string t).
Proof.
  intros Hlo Hhi.
  set (hi := (55296 + (c - 65536) / 1024)%N).
  set (lo := (56320 + (c - 65536) `mod` 1024)%N).
  assert (hi < 65536)%N as Hhi16 by (unfold hi; n_arith).
  assert (lo < 65536)%N as Hlo16 by (unfold lo; n_arith).
  unfold escape_u at 1. cbn [app]. rewrite scan_string_u, hex4_escape by done.
  unfold escape_u. cbn [app]. rewrite hex4_escape by done.
  assert (is_high_surrogate hi = true) as ->.
  { unfold is_high_surrogate. apply andb_true_iff.
    split; apply N.leb_le; unfold hi; n_arith. }
  assert (is_low_surrogate lo = true) as ->.
  { unfold is_low_surrogate. apply andb_true_iff.
    split; apply N.leb_le; unfold lo; n_arith. }
  cbn [andb N.eqb Pos.eqb]. f_equal. unfold hi, lo. n_arith.
Qed.

Lemma scan_string_escape c t :
  unicode_scalar c → scan_string (escape_char c ++ t) = push c (scan_string t).
Proof.
  intros [Hmax Hsur]. unfold escape_char.
  destruct (c =? 34)%N eqn:E1; [apply N.eqb_eq in E1 as ->; done|].
  destruct (c =? 92)%N eqn:E2; [apply N.eqb_eq in E2 as ->; done|].
  destruct (c =? 10)%N eqn:E3; [apply N.eqb_eq in E3 as ->; done|].
  destruct (c =? 13)%N eqn:E4; [apply N.eqb_eq in E4 as ->; done|].
  destruct (c =? 9)%N eqn:E5; [apply N.eqb_eq in E5 as ->; done|].
  destruct (c =? 12)%N eqn:E6; [apply N.eqb_eq in E6 as ->; done|].
  destruct (c =? 8)%N eqn:E7; [apply N.eqb_eq in E7 as ->; done|].
  destruct ((32 <=? c) && (c <=? 126))%N eqn:E8.
  - apply andb_true_iff in E8 as [Hge%N.leb_le Hle%N.leb_le].
    cbn [app scan_string]. rewrite E1, E2.
    by replace (c <? 32)%N with false by (symmetry; apply N.ltb_ge; lia).
  - destruct (c <? 65536)%N eqn:E9.
    + apply N.ltb_lt in E9. apply scan_string_plain_u; [done|].
      unfold is_high_surrogate. apply andb_false_iff.
      destruct (decide (c < 55296)%N); [left; apply N.leb_gt; lia|].
      right. apply N.leb_gt. lia.
    + apply N.ltb_ge in E9. rewrite <- app_assoc.
      by apply scan_string_pair.
Qed.

Lemma scan_string_encode s rest :
  Forall unicode_scalar s →
  scan_string (concat (map escape_char s) ++ 34%N :: rest) = Some (s, rest).
Proof.
  induction 1 as [|c s Hc _ IH]; [done|].
  cbn [map concat]. rewrite <- app_assoc, scan_string_escape by done.
  by rewrite IH.
Qed.

Lemma lit_cons a s : lit (String a s) = N_of_ascii a :: lit s.
Proof. reflexivity. Qed.

Lemma unlit_lit s : unlit (lit s) = s.
Proof.
  unfold unlit, lit. rewrite map_map.
  rewrite (map_ext _ id) by apply ascii_N_embedding.
  rewrite map_id. apply string_of_list_ascii_of_string.
Qed.

Lemma span_app p tok sep rest :
  Forall (λ c, p c = true) tok → p sep = false →
  span p (tok ++ sep :: rest) = (tok, sep :: rest).
Proof.
  intros Htok Hsep. induction Htok as [|c tok Hc _ IH]; cbn [app span].
  - by rewrite Hsep.
  - by rewrite Hc, IH.
Qed.

Lemma span_all p tok :
  Forall (λ c, p c = true) tok → span p tok = (tok, []).
Proof.
  induction 1 as [|c tok Hc _ IH]; cbn [span]; [done|]. by rewrite Hc, IH.
Qed.

Lemma uint_digits d :
  Forall (λ c, is_digit c = true) (lit (NilEmpty.string_of_uint d)).
Proof.
  induction d; cbn [NilEmpty.string_of_uint]; rewrite ?lit_cons;
    constructor; done.
Qed.

Lemma nzhead_no_zero d u : Decimal.nzhead d ≠ Decimal.D0 u.
Proof. induction d; cbn [Decimal.nzhead]; done. Qed.

(** The decimal digits of a positive number: a non-zero digit first. *)
Lemma to_uint_digits p :
  ∃ c t, lit (NilZero.string_of_uint (Pos.to_uint p)) = c :: t
         ∧ is_digit c = true ∧ c ≠ 48%N
         ∧ Forall (λ c, is_digit c = true) t.
Proof.
  pose proof (Unsigned.to_of (Pos.to_uint p)) as Hnorm.
  rewrite Unsigned.of_to in Hnorm. cbn [N.to_uint] in Hnorm.
  pose proof (Unsigned.to_uint_nonzero p) as Hnz.
  pose proof (uint_digits (Pos.to_uint p)) as Hd.
  unfold Decimal.unorm in Hnorm.
  pose proof (nzhead_no_zero (Pos.to_uint p)) as Hhead.
  destruct (Pos.to_uint p) as [|u|u|u|u|u|u|u|u|u|u] eqn:E;
    [by destruct (Unsigned.to_uint_nonnil p)
    |destruct (Decimal.nzhead (Decimal.D0 u)); try done;
       by destruct (Hhead u)
    |..];
    cbn [NilZero.string_of_uint NilEmpty.string_of_uint] in *;
    rewrite lit_cons in *; apply Forall_cons in Hd as [_ Hd];
    eexists _, _; done.
Qed.

Lemma digit_number_char c : is_digit c = true → number_char c = true.
Proof. unfold number_char, is_digit. by intros ->. Qed.

Lemma digit_no_point c :
  is_digit c = true → ((c =? 46) || (c =? 69) || (c =? 101))%N = false.
Proof.
  unfold is_digit. intros [H1%N.leb_le H2%N.leb_le]%andb_true_iff.
  rewrite !orb_false_iff. split_and!; apply N.eqb_neq; lia.
Qed.

Lemma digit_not_special c :
  is_digit c = true → c ≠ 34%N ∧ c ≠ 45%N ∧ json_ws c = false.
Proof.
  unfold is_digit, json_ws.
  intros [H1%N.leb_le H2%N.leb_le]%andb_true_iff.
  split_and!; [lia..|].
  rewrite !orb_false_iff. split_and!; apply N.eqb_neq; lia.
Qed.

Lemma digits_token c t :
  is_digit c = true → c ≠ 48%N → Forall (λ c, is_digit c = true) t →
  Forall (λ c, number_char c = true) (c :: t)
  ∧ existsb (λ c, (c =? 46) || (c =? 69) || (c =? 101))%N (c :: t) = false
  ∧ (if (c =? 48)%N then fraction_opt t
     else is_digit c && fraction_opt (span is_digit t).2) = true.
Proof.
  intros Hc Hnz Ht. split_and!.
  - constructor; [by apply digit_number_char|].
    eapply Forall_impl; [done|]. apply digit_number_char.
  - apply not_true_iff_false. intros Hex. apply existsb_exists in Hex.
    destruct Hex as (x & Hx & Hpt).
    assert (is_digit x = true) as Hdx.
    { apply list_elem_of_In in Hx. apply elem_of_cons in Hx as [->|Hx]; [done|].
      rewrite Forall_forall in Ht. by apply Ht. }
    by rewrite (digit_no_point x) in Hpt.
  - replace (c =? 48)%N with false by (symmetry; by apply N.eqb_neq).
    by rewrite Hc, span_all.
Qed.

Lemma repr_int_token n : int_token (repr_int n).
Proof.
  unfold int_token, repr_int. destruct n as [|p|p]; cbn [Z.to_int].
  - split_and!; [repeat constructor|done|done|]. by eexists _, _.
  - cbn [NilZero.string_of_int].
    destruct (to_uint_digits p) as (c & t & -> & Hc & Hnz & Ht).
    destruct (digits_token c t Hc Hnz Ht) as (Hall & Hex & Hgr).
    destruct (digit_not_special c Hc) as (Hq & Hminus & Hws).
    split_and!; [done|done| |by eexists _, _].
    unfold number_grammar.
    by replace (c =? 45)%N with false by (symmetry; by apply N.eqb_neq).
  - cbn [NilZero.string_of_int]. rewrite lit_cons.
    destruct (to_uint_digits p) as (c & t & -> & Hc & Hnz & Ht).
    destruct (digits_token c t Hc Hnz Ht) as (Hall & Hex & Hgr).
    split_and!; [by constructor|done|done|by eexists _, _].
Qed.

Lemma repr_int_parse n :
  NilZero.int_of_string (unlit (repr_int n)) = Some (Z.to_int n).
Proof.
  unfold repr_int. rewrite unlit_lit. apply NilZero.isi.
  - destruct n; cbn [Z.to_int]; [done| |done].
    intros [= E]. by destruct (Unsigned.to_uint_nonnil p).
  - destruct n; cbn [Z.to_int]; [done|done|].
    intros [= E]. by destruct (Unsigned.to_uint_nonnil p).
Qed.

Lemma scan_number_int n sep rest :
  number_char sep = false →
  scan_number (repr_int n ++ sep :: rest) = Some (PyInt n, sep :: rest).
Proof.
  intros Hsep. destruct (repr_int_token n) as (Hall & Hex & Hgr & _).
  unfold scan_number. rewrite span_app by done.
  unfold is_float_literal. rewrite Hex, andb_false_r. cbn [andb].
  rewrite Hgr, repr_int_parse. cbn. by rewrite DecimalZ.of_to.
Qed.

Lemma scan_number_float r sep rest :
  is_float_literal r = true → number_char sep = false →
  scan_number (r ++ sep :: rest) = Some (PyFloat r, sep :: rest).
Proof.
  intros Hr Hsep. unfold scan_number.
  assert (Forall (λ c, number_char c = true) r) as Hall.
  { unfold is_float_literal in Hr.
    apply andb_true_iff in Hr as [[Hall _]%andb_true_iff _].
    rewrite forallb_forall in Hall. apply Forall_forall. intros c Hc.
    by apply Hall, list_elem_of_In. }
  rewrite span_app by done. by rewrite Hr.
Qed.

Lemma scan_value_number s c t :
  s = c :: t → c ≠ 34%N → scan_value s = scan_number s.
Proof.
  intros -> Hc. unfold scan_value.
  by replace (c =? 34)%N with false by (symmetry; by apply N.eqb_neq).
Qed.

Lemma float_literal_head r :
  is_float_literal r = true →
  ∃ c t, r = c :: t ∧ c ≠ 34%N ∧ json_ws c = false.
Proof.
  unfold is_float_literal.
  intros [[Hall Hex]%andb_true_iff _]%andb_true_iff.
  destruct r as [|c t]; [done|]. exists c, t. split; [done|].
  cbn [forallb] in Hall. apply andb_true_iff in Hall as [Hc _].
  split; [by intros ->|].
  unfold number_char in Hc. unfold json_ws.
  rewrite !orb_false_iff. split_and!; apply N.eqb_neq; intros ->; done.
Qed.

Lemma value_head v s :
  wf_value v → ∃ c t, encode_value v ++ s = c :: t ∧ json_ws c = false.
Proof.
  destruct v as [n|r|b]; cbn [wf_value encode_value]; intros Hv.
  - destruct (repr_int_token n) as (_ & _ & _ & c & t & -> & _ & Hws).
    by eexists _, _.
  - destruct (float_literal_head r Hv) as (c & t & -> & _ & Hws).
    by eexists _, _.
  - by eexists _, _.
Qed.

Lemma skip_ws_value v s :
  wf_value v → skip_ws (encode_value v ++ s) = encode_value v ++ s.
Proof.
  intros (c & t & -> & Hws)%(value_head v s). cbn [skip_ws]. by rewrite Hws.
Qed.

Lemma scan_value_encode v sep rest :
  wf_value v → number_char sep = false →
  scan_value (encode_value v ++ sep :: rest) = Some (v, sep :: rest).
Proof.
  destruct v as [n|r|b]; cbn [wf_value encode_value]; intros Hv Hsep.
  - destruct (repr_int_token n) as (_ & _ & _ & c & t & E & Hq & _).
    rewrite (scan_value_number _ c (t ++ sep :: rest)); [|by rewrite E|done].
    by apply scan_number_int.
  - destruct (float_literal_head r Hv) as (c & t & E & Hq & _).
    rewrite (scan_value_number _ c (t ++ sep :: rest)); [|by rewrite E|done].
    by apply scan_number_float.
  - unfold encode_string. cbn [app scan_value N.eqb Pos.eqb].
    rewrite <- app_assoc. cbn [app]. by rewrite scan_string_encode.
Qed.

Lemma encode_item_shape k v s :
  encode_item (k, v) ++ s
  = 34%N :: concat (map escape_char k)
      ++ 34%N :: 58%N :: 32%N :: encode_value v ++ s.
Proof.
  unfold encode_item, encode_string. cbn [fst snd app].
  by rewrite <- !app_assoc.
Qed.

Lemma scan_members_space fuel s :
  scan_members fuel (32%N :: s) = scan_members fuel s.
Proof. by destruct fuel. Qed.

Lemma scan_members_next fuel k v tail :
  wf_item (k, v) →
  scan_members (S fuel) (encode_item (k, v) ++ 44%N :: tail)
  = '(items, rest) ← scan_members fuel tail; Some ((k, v) :: items, rest).
Proof.
  intros [Hk Hv]. cbn [fst snd] in Hk, Hv. rewrite encode_item_shape.
  cbn [scan_members skip_ws json_ws N.eqb Pos.eqb orb].
  rewrite scan_string_encode by done.
  cbn [mbind option_bind skip_ws json_ws N.eqb Pos.eqb orb].
  rewrite skip_ws_value, scan_value_encode by done.
  by cbn [mbind option_bind skip_ws json_ws N.eqb Pos.eqb orb].
Qed.

Lemma scan_members_last fuel k v tail :
  wf_item (k, v) →
  scan_members (S fuel) (encode_item (k, v) ++ 125%N :: tail)
  = Some ([(k, v)], tail).
Proof.
  intros [Hk Hv]. cbn [fst snd] in Hk, Hv. rewrite encode_item_shape.
  cbn [scan_members skip_ws json_ws N.eqb Pos.eqb orb].
  rewrite scan_string_encode by done.
  cbn [mbind option_bind skip_ws json_ws N.eqb Pos.eqb orb].
  rewrite skip_ws_value, scan_value_encode by done.
  by cbn [mbind option_bind skip_ws json_ws N.eqb Pos.eqb orb].
Qed.

Lemma scan_members_items fuel items rest :
  items ≠ [] → Forall wf_item items → (length items ≤ fuel)%nat →
  scan_members fuel (join (lit ", ") (map encode_item items) ++ 125%N :: rest)
  = Some (items, rest).
Proof.
  intros Hne Hwf. revert fuel.
  induction Hwf as [|[k v] items Hi Hwf IH]; [done|]. intros fuel Hfuel.
  destruct fuel as [|fuel]; [cbn in Hfuel; lia|].
  destruct items as [|item items].
  - cbn [map join]. by apply scan_members_last.
  - change (join (lit ", ") (map encode_item ((k, v) :: item :: items)))
      with (encode_item (k, v)
            ++ lit ", " ++ join (lit ", ") (map encode_item (item :: items))).
    rewrite <- !app_assoc. change (lit ", " ++ ?x) with (44%N :: 32%N :: x).
    rewrite scan_members_next, scan_members_space by done.
    rewrite IH; [done|done|]. cbn [length] in *. lia.
Qed.

Lemma join_length sep items :
  (length items ≤ length (join sep (map encode_item items)))%nat.
Proof.
  induction items as [|[k v] items IH]; [done|].
  destruct items as [|item items].
  - cbn. lia.
  - change (join sep (map encode_item ((k, v) :: item :: items)))
      with (encode_item (k, v)
            ++ sep ++ join sep (map encode_item (item :: items))).
    rewrite !length_app. unfold encode_item at 1, encode_string.
    cbn [length app] in *. lia.
Qed.

Lemma join_head sep k v items rest :
  ∃ t, join sep (map encode_item ((k, v) :: items)) ++ rest = 34%N :: t.
Proof. destruct items; cbn [map join]; by eexists. Qed.

(** Reading back what [json.dump] wrote for a non-empty dict gives the
    dict. *)
Lemma json_loads_dumps items :
  items ≠ [] → Forall wf_item items →
  json_loads (json_dumps items) = Some (dict_of_items items).
Proof.
  intros Hne Hwf. unfold json_loads, json_dumps.
  cbn [skip_ws json_ws N.eqb Pos.eqb orb].
  rewrite (scan_members_items _ items []); [|done|done|].
  - destruct items as [|[k v] items]; [done|].
    destruct (join_head (lit ", ") k v items [125%N]) as [t ->].
    by cbn [skip_ws json_ws N.eqb Pos.eqb orb mbind option_bind].
  - rewrite length_app. pose proof (join_length (lit ", ") items). lia.
Qed.

Lemma saved_settings_text fs free_tier_ads premium_price premium_benefits :
  save_business_settings fs free_tier_ads premium_price premium_benefits
    !! settings_path
  = Some (json_dumps [ (lit "free_tier_ads", PyInt free_tier_ads);
                       (lit "premium_price", PyFloat premium_price);
                       (lit "premium_benefits", PyStr premium_benefits) ]).
Proof.
  unfold save_business_settings, write, open_w.
  by rewrite lookup_alter_eq, lookup_insert_eq.
Qed.

Lemma lit_scalar s : Forall unicode_scalar (lit s).
Proof.
  induction s as [|a s IH]; [constructor|]. rewrite lit_cons.
  constructor; [|done]. pose proof (N_ascii_bounded a).
  unfold unicode_scalar. lia.
Qed.

(** C8. Whatever the settings file held before, saving the three business
    settings and then reading the file back as JSON gives the object with
    exactly the three saved fields: the file is overwritten, not merged. *)
Theorem settings_save_then_reload
    (fs : gmap string str) free_tier_ads premium_price premium_benefits :
  is_float_literal premium_price = true →
  Forall unicode_scalar premium_benefits →
  reload_settings
    (save_business_settings fs free_tier_ads premium_price premium_benefits)
  = Some (<[lit "free_tier_ads" := PyInt free_tier_ads]>
            (<[lit "premium_price" := PyFloat premium_price]>
               (<[lit "premium_benefits" := PyStr premium_benefits]> ∅))).
Proof.
  intros Hprice Hbenefits. unfold reload_settings.
  rewrite saved_settings_text. cbn [mbind option_bind].
  rewrite json_loads_dumps; [|done|].
  - reflexivity.
  - do 3 (constructor; [split; [apply lit_scalar|done]|]). constructor.
Qed.

Lemma settings_save_then_reload_witness :
  reload_settings
    (save_business_settings old_files 2 (lit "9.99") sample_benefits)
  = Some (<[lit "free_tier_ads" := PyInt 2]>
            (<[lit "premium_price" := PyFloat (lit "9.99")]>
               (<[lit "premium_benefits" := PyStr sample_benefits]> ∅))).
Proof.
  apply (settings_save_then_reload old_files 2 (lit "9.99") sample_benefits).
  - vm_compute. reflexivity.
  - unfold sample_benefits.
    constructor; [unfold unicode_scalar; lia|].
    apply Forall_app. split; [apply lit_scalar|].
    constructor; [unfold unicode_scalar; lia|].
    constructor; [unfold unicode_scalar; lia|]. apply lit_scalar.
Defined.

(** ** The reachable databases cover the two pages *)

Lemma steps_ret {A} (a : A) : steps_store (mret a).
Proof. by intros w g. Qed.

Lemma steps_bind {A B} (m : run A) (f : A → run B) :
  steps_store m → (∀ a, steps_store (f a)) → steps_store (m ≫= f).
Proof.
  intros Hm Hf w g Hnone Hreach. unfold mbind, run_bind.
  destruct (Hm w g Hnone Hreach) as [Hreach' Hnone'].
  destruct (m w) as [w' [a|e]]; cbn in *; [|done]. by apply Hf.
Qed.

Lemma steps_attr {A} name (field : session_state → option A) :
  steps_store (attr name field).
Proof. intros w g. unfold attr. by destruct (field (ss w)). Qed.

Lemma steps_get_db : steps_store get_db.
Proof. by intros w g. Qed.

Lemma steps_if {A} (b : bool) (m1 m2 : run A) :
  steps_store m1 → steps_store m2 → steps_store (if b then m1 else m2).
Proof. by destruct b. Qed.

Lemma steps_for_each {A} (l : list A) (body : A → run unit) :
  (∀ x, steps_store (body x)) → steps_store (for_each l body).
Proof.
  intros Hbody. induction l as [|x l IH]; cbn [for_each].
  - apply steps_ret.
  - apply steps_bind; [apply Hbody|by intros _].
Qed.

Lemma steps_watch_ad inp : steps_store (watch_ad inp).
Proof. intros w g Hnone Hreach. by rewrite watch_ad_unset. Qed.

Lemma steps_generate capitalize inp file :
  steps_store (generate capitalize inp file).
Proof.
  intros w g Hnone Hreach.
  destruct (generate_caption capitalize (generated_text file) (style inp))
    as [[caption tags]|e] eqn:Hgen.
  - by rewrite (generate_unset _ _ _ _ _ _ Hnone Hgen).
  - unfold generate, lift, mbind, run_bind. by rewrite Hgen.
Qed.

Lemma steps_initialize_session inp : steps_store (initialize_session inp).
Proof.
  intros w g Hnone Hreach.
  split; [|by rewrite keeps_initialize_session].
  unfold initialize_session, has_attr, mbind, mret, run_bind, run_ret.
  cbn. destruct (bool_decide _); [done|]. cbn.
  destruct (insert_user (db w) (time_hash inp) (now inp)) as [d'|e] eqn:E;
    cbn; [|done].
  apply (reachable_step (db w)); [done|]. by eapply step_register.
Qed.

Lemma steps_main_user_app capitalize inp :
  steps_store (main_user_app capitalize inp).
Proof.
  unfold main_user_app.
  apply steps_bind; [apply steps_initialize_session|intros _].
  do 2 (apply steps_bind; [apply steps_attr|intros _]).
  destruct (uploaded_file inp) as [file|]; [|apply steps_ret].
  apply steps_bind; [apply steps_get_db|intros d].
  apply steps_bind.
  { unfold needs_ads. apply steps_bind; [apply steps_attr|intros count].
    apply steps_if; [|apply steps_ret].
    apply steps_bind; [apply steps_attr|intros ?; apply steps_ret]. }
  intros gated. apply steps_bind.
  - apply steps_if; [|apply steps_ret]. apply steps_for_each. intros i.
    apply steps_if; [apply steps_watch_ad|apply steps_ret].
  - intros _. apply steps_bind.
    + unfold generate_disabled.
      apply steps_bind; [apply steps_attr|intros count].
      apply steps_if; [|apply steps_ret].
      apply steps_bind; [apply steps_attr|intros ?; apply steps_ret].
    + intros b. apply steps_if; [apply steps_generate|apply steps_ret].
Qed.

(** A run of the main page in a session that the page can produce takes a
    reachable database to a reachable database. *)
Lemma page_run_reachable capitalize inp w granted :
  session_reachable capitalize (ss w) → reachable (db w) granted →
  reachable (db (main_user_app capitalize inp w).1) granted.
Proof.
  intros Hs%reachable_user_id_unset Hd.
  by destruct (steps_main_user_app capitalize inp w granted Hs Hd).
Qed.

(** So does a run of the dashboard, the grants growing with "Add coins". *)
Lemma dashboard_run_reachable env_password admin_pass action s granted :
  reachable (store s) granted →
  ∃ granted',
    reachable
      (store (enterprise_admin_dashboard env_password admin_pass action s))
      granted'.
Proof.
  intros Hd. unfold enterprise_admin_dashboard.
  case_decide; [by eexists|].
  destruct action as [|platform api_key priority is_active ads_per_use
    min_coins|edited|selected_user amount|users_csv captions_csv archive
    |free_tier_ads premium_price premium_benefits|dump|]; cbn [store].
  - by eexists.
  - eexists. eapply reachable_step; [done|]. apply step_save_configuration.
  - case_decide; [by eexists|]. cbn [store].
    eexists. eapply reachable_step; [done|]. apply step_save_changes.
  - case_decide; [|by eexists]. cbn [store].
    eexists. by apply reachable_grant.
  - case_decide; by eexists.
  - by eexists.
  - by eexists.
  - by eexists.
Qed.

(** * Further properties of the code *)

(** ** The caption generator *)

Lemma split_once_cut sep s :
  sep ∈ s →
  ∃ h t, split_once sep s = [h; t] ∧ s = h ++ sep :: t ∧ sep ∉ h.
Proof.
  induction s as [|c s IH]; intros Hin; [by apply elem_of_nil in Hin|].
  cbn [split_once]. destruct (c =? sep)%N eqn:E.
  - apply N.eqb_eq in E as ->. exists [], s. split_and!; [done..|].
    apply not_elem_of_nil.
  - apply N.eqb_neq in E. apply elem_of_cons in Hin as [->|Hin]; [done|].
    destruct (IH Hin) as (h & t & -> & -> & Hh). exists (c :: h), t.
    split_and!; [done..|]. apply not_elem_of_cons. split; [congruence|done].
Qed.

Lemma split_sep_cut sep s :
  ∃ h t, split_sep sep s = h :: t ∧ (sep ∉ h)
         ∧ (s = h ∨ ∃ tail, s = h ++ sep :: tail).
Proof.
  induction s as [|c s (h & t & IH & Hh & Hs)]; cbn [split_sep].
  - exists [], []. split_and!; [done|apply not_elem_of_nil|by left].
  - destruct (c =? sep)%N eqn:E.
    + apply N.eqb_eq in E as ->. eexists [], _.
      split_and!; [done|apply not_elem_of_nil|]. right. by exists s.
    + apply N.eqb_neq in E. rewrite IH. exists (c :: h), t.
      split_and!; [done| |].
      * apply not_elem_of_cons. split; [congruence|done].
      * destruct Hs as [->|[tail ->]]; [by left|]. right. by exists tail.
Qed.

(** The entries of the [styles] dictionary. *)
Lemma styles_entries capitalize result rest head :
  index (split_once 32%N result) 1 = Ok rest →
  index (split_sep 44%N result) 0 = Ok head →
  styles capitalize result
  = Ok [ (smart, capitalize result);
         (funny, lit "LOL when I " ++ rest ++ [32%N; 128514%N]);
         (inspirational,
          lit "In this moment: " ++ result
            ++ lit ". Cherish the journey. " ++ [10024%N]);
         (minimalist, head);
         (professional, lit "High-quality image showing: " ++ result);
         (dramatic,
          lit "OMG! You won't BELIEVE what happens when " ++ result
            ++ lit "!!!") ].
Proof. unfold styles. by intros -> ->. Qed.

Lemma generate_caption_entry capitalize result style d text :
  styles capitalize result = Ok d →
  dict_find d style = Some text →
  generate_caption capitalize result style = Ok (text, hashtags_of result).
Proof.
  intros Hd Hfind. unfold generate_caption. rewrite Hd. cbn.
  unfold dict_subscript, dict_get.
  by rewrite (styles_find_smart _ _ _ Hd), Hfind.
Qed.

Lemma generate_caption_needs_a_space_aux capitalize result style :
  (32%N ∈ result →
   ∃ caption,
     generate_caption capitalize result style
     = Ok (caption, hashtags_of result))
  ∧ (32%N ∉ result →
     generate_caption capitalize result style = Raise IndexError).
Proof.
  split.
  - intros [d Hd]%(styles_defined capitalize). unfold generate_caption.
    rewrite Hd. cbn. unfold dict_subscript.
    rewrite (styles_find_smart _ _ _ Hd). cbn. by eexists.
  - intros Hd%(styles_undefined capitalize). unfold generate_caption.
    by rewrite Hd.
Qed.

(** X1. [generate_caption] returns a caption, with the hashtags of the
    description, exactly when the description holds a space (U+0020);
    without one it raises [IndexError], for every style and also for the
    empty description, because the "Funny" entry is built first. *)
Theorem generate_caption_needs_a_space capitalize result style :
  (32%N ∈ result →
   ∃ caption,
     generate_caption capitalize result style
     = Ok (caption, hashtags_of result))
  ∧ (32%N ∉ result →
     generate_caption capitalize result style = Raise IndexError).
Proof. apply generate_caption_needs_a_space_aux. Qed.

Lemma generate_caption_needs_a_space_witness :
  (∃ caption,
     generate_caption capitalize_ascii beach_text dramatic
     = Ok (caption, hashtags_of beach_text))
  ∧ generate_caption capitalize_ascii (lit "sunset") smart = Raise IndexError
  ∧ generate_caption capitalize_ascii [] smart = Raise IndexError.
Proof.
  split_and!.
  - apply (proj1 (generate_caption_needs_a_space capitalize_ascii beach_text
                    dramatic)).
    apply (bool_decide_unpack _). vm_compute. exact I.
  - apply (proj2 (generate_caption_needs_a_space capitalize_ascii
                    (lit "sunset") smart)).
    apply (bool_decide_unpack _). vm_compute. exact I.
  - apply (proj2 (generate_caption_needs_a_space capitalize_ascii [] smart)).
    apply not_elem_of_nil.
Defined.

(** X2. With the "Minimalist" style the caption is the description up to
    its first comma: it holds no comma, and the description is this caption
    alone or this caption, a comma and more text. *)
Theorem minimalist_caption_stops_at_comma capitalize result :
  32%N ∈ result →
  ∃ head,
    generate_caption capitalize result minimalist
    = Ok (head, hashtags_of result)
    ∧ (44%N ∉ head)
    ∧ (result = head ∨ ∃ tail, result = head ++ 44%N :: tail).
Proof.
  intros (first & rest & Hrest & _)%split_once_cut.
  destruct (split_sep_cut 44%N result) as (head & t & Hhead & Hno & Hcut).
  exists head. split_and!; [|done..].
  eapply generate_caption_entry.
  - apply (styles_entries _ _ rest head); unfold index.
    + by rewrite Hrest.
    + by rewrite Hhead.
  - reflexivity.
Qed.

Lemma minimalist_caption_stops_at_comma_witness :
  ∃ head,
    generate_caption capitalize_ascii comma_text minimalist
    = Ok (head, hashtags_of comma_text)
    ∧ (44%N ∉ head)
    ∧ (comma_text = head ∨ ∃ tail, comma_text = head ++ 44%N :: tail).
Proof.
  apply (minimalist_caption_stops_at_comma capitalize_ascii comma_text).
  apply (bool_decide_unpack _). vm_compute. exact I.
Defined.

(** X3. With the "Funny" style the caption is ["LOL when I "], the
    description after its first space, and [" 😂"]: the first word of the
    description is dropped. *)
Theorem funny_caption_drops_first_word capitalize result :
  32%N ∈ result →
  ∃ first rest,
    result = first ++ 32%N :: rest
    ∧ (32%N ∉ first)
    ∧ generate_caption capitalize result funny
      = Ok (lit "LOL when I " ++ rest ++ [32%N; 128514%N],
            hashtags_of result).
Proof.
  intros (first & rest & Hrest & Hcut & Hno)%split_once_cut.
  destruct (split_sep_cut 44%N result) as (head & t & Hhead & _).
  exists first, rest. split_and!; [done..|].
  eapply generate_caption_entry.
  - apply (styles_entries _ _ rest head); unfold index.
    + by rewrite Hrest.
    + by rewrite Hhead.
  - reflexivity.
Qed.

Lemma funny_caption_drops_first_word_witness :
  ∃ first rest,
    beach_text = first ++ 32%N :: rest
    ∧ (32%N ∉ first)
    ∧ generate_caption capitalize_ascii beach_text funny
      = Ok (lit "LOL when I " ++ rest ++ [32%N; 128514%N],
            hashtags_of beach_text).
Proof.
  apply (funny_caption_drops_first_word capitalize_ascii beach_text).
  apply (bool_decide_unpack _). vm_compute. exact I.
Defined.

Lemma join_cons_head sep c x l :
  ∃ t, join sep ((c :: x) :: l) = c :: t.
Proof. destruct l; cbn [join app]; by eexists. Qed.

(** X4. The hashtag string is exactly [" #InstaAI #SocialMedia"], with its
    leading space, if and only if the description has no word longer than
    three characters (the empty description included). *)
Theorem hashtags_without_long_word result :
  Forall (λ w, (length w ≤ 3)%nat) (split result)
  ↔ hashtags_of result = lit " #InstaAI #SocialMedia".
Proof.
  unfold hashtags_of, keywords.
  destruct (filter (λ word, (3 < length word)%nat) (split result))
    as [|k ks] eqn:E.
  - split; [done|]. intros _. apply Forall_forall. intros w Hw.
    destruct (decide (3 < length w)%nat) as [Hlong|]; [|lia].
    assert (w ∈ filter (λ word, (3 < length word)%nat) (split result))
      as Hin by by apply list_elem_of_filter.
    rewrite E in Hin. by apply elem_of_nil in Hin.
  - split.
    + intros Hall.
      assert (k ∈ filter (λ word, (3 < length word)%nat) (split result))
        as [Hlong Hin]%list_elem_of_filter by (rewrite E; left).
      rewrite Forall_forall in Hall. specialize (Hall k Hin). lia.
    + intros H.
      assert (∃ t, join (lit " ") (map hashtag (take 5 (k :: ks)))
                   = hash_sign :: t) as [t Ht]
        by apply (join_cons_head _ hash_sign k).
      rewrite Ht in H. discriminate H.
Qed.

Lemma hashtags_without_long_word_witness :
  hashtags_of short_text = lit " #InstaAI #SocialMedia".
Proof.
  apply (proj1 (hashtags_without_long_word short_text)).
  apply (bool_decide_unpack _). vm_compute. exact I.
Defined.

(** ** The main page in the sessions it produces *)

(** X5. Once a session is initialized, a run of the main page changes
    neither the database nor the session, whatever is uploaded or clicked.
    It returns normally unless a picture is uploaded, "Generate Caption" is
    clicked and the required ad count is zero or less; then it raises
    [AttributeError] on [user_id] (or [IndexError] when the model text has
    no space) before anything is stored. *)
Theorem initialized_run_changes_nothing capitalize inp d device :
  main_user_app capitalize inp {| db := d; ss := initialized_session device |}
  = ({| db := d; ss := initialized_session device |},
     match uploaded_file inp with
     | Some file =>
         if bool_decide (clicked inp = Some GenerateCaption)
            && bool_decide (ads_required_of d ≤ 0)
         then if decide (32%N ∈ generated_text file)
              then Raise (AttributeError "user_id")
              else Raise IndexError
         else Ok tt
     | None => Ok tt
     end).
Proof.
  unfold main_user_app.
  erewrite bind_returns by by apply initialize_session_known.
  unfold attr, get_db, needs_ads, generate_disabled, mbind, mret, run_bind,
    run_ret.
  cbn. destruct (uploaded_file inp) as [file|]; [|done]. cbn.
  rewrite (bool_decide_false (0 > 0)) by lia. cbn.
  rewrite (bool_decide_true (0 `mod` 3 = 0)) by done. cbn.
  unfold st_button.
  replace (negb (bool_decide (0 < ads_required_of d)))
    with (bool_decide (ads_required_of d ≤ 0))
    by (repeat case_bool_decide; done || lia).
  destruct (_ && _); [|done].
  destruct (decide (32%N ∈ generated_text file)) as [Hsp|Hsp].
  - destruct (proj1 (generate_caption_needs_a_space_aux capitalize
                       (generated_text file) (style inp)) Hsp)
      as [caption Hgen].
    by erewrite generate_unset.
  - unfold generate, lift, mbind, run_bind.
    by rewrite (proj2 (generate_caption_needs_a_space_aux capitalize
                         (generated_text file) (style inp)) Hsp).
Qed.

(** X6. Every session that the main page can produce is either new or holds
    its device token with coins, caption counter and ad counter at zero,
    and neither [user_id] nor [current_ad]: the counters never move.  In
    such an initialized session no ad button is ever offered, and
    "Generate Caption" is disabled exactly when the required ad count is
    positive. *)
Theorem reachable_session_counters_stay_zero capitalize s :
  session_reachable capitalize s →
  (s = new_session ∨ ∃ device, s = initialized_session device)
  ∧ (s ≠ new_session →
     ∀ d required,
       needs_ads {| db := d; ss := s |} = ({| db := d; ss := s |}, Ok false)
       ∧ generate_disabled required {| db := d; ss := s |}
         = ({| db := d; ss := s |}, Ok (bool_decide (0 < required)))).
Proof.
  intros Hshape%reachable_session_shape. split; [done|].
  intros Hnot d required. destruct Hshape as [->|[device ->]]; [done|].
  unfold needs_ads, generate_disabled, attr, mbind, mret, run_bind, run_ret.
  cbn. rewrite (bool_decide_false (0 > 0)) by lia.
  by rewrite (bool_decide_true (0 `mod` 3 = 0)) by done.
Qed.

Lemma reachable_session_counters_stay_zero_witness :
  ss (main_user_app capitalize_ascii generate_click
        (main_user_app capitalize_ascii first_visit opening_world).1).1
  = initialized_session (lit "0a1b2c3d4e5f")
  ∧ generate_disabled 1
      {| db := init_db; ss := initialized_session (lit "0a1b2c3d4e5f") |}
    = ({| db := init_db; ss := initialized_session (lit "0a1b2c3d4e5f") |},
       Ok true).
Proof.
  split; [reflexivity|].
  apply (proj2 (reachable_session_counters_stay_zero capitalize_ascii
                  (initialized_session (lit "0a1b2c3d4e5f"))
                  (reach_run capitalize_ascii opening_world first_visit
                     (reach_new capitalize_ascii)))).
  discriminate.
Defined.

(** X7. The first run of a new session whose device token is not yet in
    the users table appends exactly one users row, with a fresh id, that
    token and all counters at zero, and leaves the session initialized;
    nothing else is stored, whatever is uploaded or clicked in that run. *)
Theorem first_run_registers_device capitalize inp w :
  ss w = new_session →
  time_hash inp ∉ map u_device_id (users (db w)) →
  (main_user_app capitalize inp w).1
  = {| db := set_users (db w)
               (users (db w)
                ++ [new_user_row (db w) (time_hash inp) (now inp)]);
       ss := initialized_session (time_hash inp) |}
  ∧ u_id (new_user_row (db w) (time_hash inp) (now inp))
    ∉ map u_id (users (db w)).
Proof.
  intros Hnew Hfresh. split.
  - pose proof (initialize_session_new inp w Hnew) as Hinit.
    rewrite insert_user_fresh in Hinit by done.
    rewrite (main_user_app_after_init _ _ _ _ Hinit) by done.
    by rewrite main_user_app_initialized.
  - intros Hin%next_rowid_fresh. cbn in Hin. lia.
Qed.

Lemma first_run_registers_device_witness :
  (main_user_app capitalize_ascii generate_click opening_world).1
  = {| db := set_users zero_ads_db
               [new_user_row zero_ads_db (lit "ffffffffffff") 20];
       ss := initialized_session (lit "ffffffffffff") |}
  ∧ u_id (new_user_row zero_ads_db (lit "ffffffffffff") 20)
    ∉ map u_id (users zero_ads_db).
Proof.
  apply (first_run_registers_device capitalize_ascii generate_click
           opening_world).
  - reflexivity.
  - apply not_elem_of_nil.
Defined.

(** X8. When the device token of a new session is already in the users
    table, the first run raises [IntegrityError] and stores nothing, but the
    session keeps that token and its counters: every later run treats the
    session as initialized and never registers a row for it. *)
Theorem colliding_token_is_adopted capitalize inp w :
  ss w = new_session →
  time_hash inp ∈ map u_device_id (users (db w)) →
  main_user_app capitalize inp w
  = ({| db := db w; ss := initialized_session (time_hash inp) |},
     Raise IntegrityError)
  ∧ ∀ inp' d,
      (main_user_app capitalize inp'
         {| db := d; ss := initialized_session (time_hash inp) |}).1
      = {| db := d; ss := initialized_session (time_hash inp) |}.
Proof.
  intros Hnew Htaken. split.
  - pose proof (initialize_session_new inp w Hnew) as Hinit.
    rewrite insert_user_taken in Hinit by done.
    unfold main_user_app. by erewrite bind_raises.
  - intros inp' d. apply main_user_app_initialized.
Qed.

Lemma colliding_token_is_adopted_witness :
  main_user_app capitalize_ascii first_visit sample_world
  = ({| db := sample_db; ss := initialized_session (lit "0a1b2c3d4e5f") |},
     Raise IntegrityError)
  ∧ ∀ inp' d,
      (main_user_app capitalize_ascii inp'
         {| db := d; ss := initialized_session (lit "0a1b2c3d4e5f") |}).1
      = {| db := d; ss := initialized_session (lit "0a1b2c3d4e5f") |}.
Proof.
  apply (colliding_token_is_adopted capitalize_ascii first_visit
           sample_world).
  - reflexivity.
  - apply (bool_decide_unpack _). vm_compute. exact I.
Defined.

(** ** The ad engine *)

(** X9. [get_active_ad_platforms] changes nothing and returns every row with
    [is_active = 1] exactly once (a permutation of those rows), in
    non-decreasing order of priority; rows that are not active, whatever
    their priority, are never returned. *)
Theorem active_platforms_sorted_permutation w :
  ∃ l,
    get_active_ad_platforms w = (w, Ok l)
    ∧ l ≡ₚ filter (λ r, ac_is_active r = 1) (ad_configs (db w))
    ∧ ∀ i j x y,
        (i < j)%nat → l !! i = Some x → l !! j = Some y →
        ac_priority x ≤ ac_priority y.
Proof.
  exists (select_active (db w)). split_and!; [done|apply order_by_priority_Permutation|].
  intros i j x y Hij Hi Hj.
  pose proof (select_active_sorted (db w)) as Hs.
  rewrite <- (take_drop j (select_active (db w))) in Hs.
  apply (StronglySorted_app_1_elem_of _ _ _ x y Hs).
  - apply elem_of_take. eauto.
  - apply list_elem_of_lookup. exists 0%nat.
    by rewrite lookup_drop, Nat.add_0_r.
Qed.

Lemma active_platforms_sorted_permutation_witness :
  get_active_ad_platforms sample_world
  = (sample_world, Ok [config_top; config_low])
  ∧ ac_priority config_top ≤ ac_priority config_low.
Proof.
  destruct (active_platforms_sorted_permutation sample_world)
    as (l & Hl & _ & Hsorted).
  injection Hl as <-. split; [reflexivity|].
  apply (Hsorted 0%nat 1%nat); [lia|reflexivity|reflexivity].
Defined.

Lemma show_ads_keeps_selection now uid w :
  select_active (db (show_ads_to_user now uid w).1) = select_active (db w).
Proof.
  rewrite show_ads_db. destruct (select_active (db w)) as [|p l] eqn:E; [done|].
  by rewrite <- E.
Qed.

Lemma complete_ads_sums times uid w platform others :
  select_active (db w) = platform :: others →
  map (λ u, (u_id u, u_coins u, u_ad_watched u))
    (users (db (complete_ads times uid w)))
  = map (λ u, if decide (u_id u = uid)
              then (u_id u,
                    u_coins u
                    + Z.of_nat (length times) * ac_min_coins platform,
                    u_ad_watched u + Z.of_nat (length times))
              else (u_id u, u_coins u, u_ad_watched u)) (users (db w))
  ∧ ∃ new,
      ad_events (db (complete_ads times uid w)) = ad_events (db w) ++ new
      ∧ length new = length times
      ∧ Forall (λ e, ae_user_id e = uid ∧ ae_platform_id e = ac_id platform
                     ∧ ae_coins_earned e = ac_min_coins platform) new.
Proof.
  intros Hsel. revert w Hsel.
  induction times as [|now times IH]; intros w Hsel.
  - cbn [complete_ads length]. split.
    + apply map_ext. intros u. case_decide; [|done]. f_equal; [f_equal|]; lia.
    + exists []. by rewrite app_nil_r.
  - cbn [complete_ads].
    destruct (IH (show_ads_to_user now uid w).1)
      as (Hus & new & Hev & Hn & Hall).
    { by rewrite show_ads_keeps_selection. }
    rewrite show_ads_db, Hsel in Hus, Hev. split.
    + rewrite Hus. cbn [insert_ad_event update_reward set_users users].
      rewrite map_map. apply map_ext. intros u.
      destruct (decide (u_id u = uid)) as [E|E]; cbn [credit u_id].
      * rewrite !decide_True by done. cbn [length u_coins u_ad_watched credit].
        f_equal; [f_equal|]; lia.
      * by rewrite !decide_False.
    + eexists (_ :: new). rewrite Hev.
      cbn [insert_ad_event update_reward set_users ad_events].
      rewrite <- app_assoc. split; [done|]. split; [cbn; lia|].
      by constructor.
Qed.

(** X10. Completed ads add up.  While the configurations stay as they are,
    [n] calls of [show_ads_to_user] for one user id add [n] times the coin
    reward of the first active platform to the balance of the rows with
    that id and [n] to their ad counter, leave the other user rows as they
    are, and append [n] ad events, each for that user, that platform and
    that reward. *)
Theorem completed_ads_add_up times uid w platform others :
  select_active (db w) = platform :: others →
  let n := Z.of_nat (length times) in
  let w' := complete_ads times uid w in
  map (λ u, (u_id u, u_coins u, u_ad_watched u)) (users (db w'))
  = map (λ u, if decide (u_id u = uid)
              then (u_id u, u_coins u + n * ac_min_coins platform,
                    u_ad_watched u + n)
              else (u_id u, u_coins u, u_ad_watched u)) (users (db w))
  ∧ ∃ new,
      ad_events (db w') = ad_events (db w) ++ new
      ∧ length new = length times
      ∧ Forall (λ e, ae_user_id e = uid ∧ ae_platform_id e = ac_id platform
                     ∧ ae_coins_earned e = ac_min_coins platform) new.
Proof. intros Hsel n w'. by eapply complete_ads_sums. Qed.

Lemma completed_ads_add_up_witness :
  map (λ u, (u_id u, u_coins u, u_ad_watched u))
    (users (db (complete_ads [50; 60; 70] 1 sample_world)))
  = [(1, 9, 3)]
  ∧ length (ad_events (db (complete_ads [50; 60; 70] 1 sample_world)))
    = 3%nat.
Proof.
  destruct (completed_ads_add_up [50; 60; 70] 1 sample_world config_top
              [config_low] eq_refl) as (Hus & new & Hev & Hn & _).
  split; [exact Hus|]. rewrite Hev, length_app, Hn. reflexivity.
Defined.

(** X21. Among active platforms of equal priority the query keeps the order
    of the table, that is, the order in which they were saved: for every
    priority, the rows of that priority in the result are the active rows of
    that priority in table order.  Together with the ascending order this
    fixes which platform [show_ads_to_user] pays for and which
    [ads_per_use] the page requires when priorities tie: the one saved
    first. *)
Theorem active_platforms_ties_in_table_order w p :
  ∃ l,
    get_active_ad_platforms w = (w, Ok l)
    ∧ filter (λ r, ac_priority r = p) l
      = filter (λ r, ac_priority r = p)
          (filter (λ r, ac_is_active r = 1) (ad_configs (db w))).
Proof.
  exists (select_active (db w)). split; [done|].
  apply order_by_priority_filter.
Qed.

Lemma active_platforms_ties_in_table_order_witness :
  map ac_id (select_active tied_db) = [1; 2; 3]
  ∧ ads_required_of tied_db = 1
  ∧ map ae_coins_earned
      (ad_events
         (db (show_ads_to_user 50 1 {| db := tied_db; ss := new_session |}).1))
    = [4].
Proof.
  destruct (active_platforms_ties_in_table_order
              {| db := tied_db; ss := new_session |} 2) as (l & Hl & Hf).
  injection Hl as <-. split; [|split; reflexivity].
  apply (f_equal (map ac_id)) in Hf. exact Hf.
Defined.

(** ** Keys of the tables *)

Lemma next_rowid_not_in ids : next_rowid ids ∉ ids.
Proof. intros Hin%next_rowid_fresh. lia. Qed.

Lemma NoDup_snoc {A} (l : list A) x : NoDup l → x ∉ l → NoDup (l ++ [x]).
Proof.
  intros Hl Hx. apply NoDup_app. split_and!; [done| |apply NoDup_singleton].
  intros y Hy ->%list_elem_of_singleton. done.
Qed.

Lemma update_config_columns d row :
  map ac_id (ad_configs (update_config d row)) = map ac_id (ad_configs d)
  ∧ map ac_platform_name (ad_configs (update_config d row))
    = map ac_platform_name (ad_configs d)
  ∧ map ac_api_key (ad_configs (update_config d row))
    = map ac_api_key (ad_configs d)
  ∧ users (update_config d row) = users d
  ∧ ad_events (update_config d row) = ad_events d
  ∧ captions (update_config d row) = captions d.
Proof.
  unfold update_config. cbn [ad_configs users ad_events captions].
  rewrite !map_map.
  split_and!; [apply map_ext; intros r; by case_decide..|done|done|done].
Qed.

Lemma save_changes_columns d edited :
  map ac_id (ad_configs (save_changes d edited)) = map ac_id (ad_configs d)
  ∧ map ac_platform_name (ad_configs (save_changes d edited))
    = map ac_platform_name (ad_configs d)
  ∧ map ac_api_key (ad_configs (save_changes d edited))
    = map ac_api_key (ad_configs d)
  ∧ users (save_changes d edited) = users d
  ∧ ad_events (save_changes d edited) = ad_events d
  ∧ captions (save_changes d edited) = captions d.
Proof.
  unfold save_changes. revert d.
  induction edited as [|row edited IH]; intros d; [done|].
  cbn [foldl].
  destruct (IH (update_config d row)) as (-> & -> & -> & -> & -> & ->).
  apply update_config_columns.
Qed.

Lemma keys_unique_step d d' :
  keys_unique d → db_step d d' → keys_unique d'.
Proof.
  intros (Hu & Hdev & Hc & He & Hcap) Hstep.
  destruct Hstep as [d device now d' Hins|w now uid Huid
    |d uid img_hash caption tags now device
    |d platform api_key priority is_active ads_per_use min_coins
    |d edited].
  - unfold insert_user in Hins. case_decide as Hfresh; [done|].
    injection Hins as <-. unfold keys_unique. cbn [users ad_configs ad_events
      captions]. rewrite !map_app. cbn [map].
    split_and!; [|by apply NoDup_snoc|done..].
    apply NoDup_snoc; [done|apply next_rowid_not_in].
  - rewrite show_ads_db. destruct (select_active (db w)); [done|].
    unfold keys_unique.
    cbn [insert_ad_event update_reward set_users users ad_configs ad_events
      captions].
    rewrite !map_map, map_app. cbn [map ae_id].
    rewrite (map_ext (λ x, u_id (if decide (u_id x = uid) then _ else x)) u_id)
      by (intros u; by case_decide).
    rewrite (map_ext (λ x, u_device_id (if decide (u_id x = uid) then _ else x))
               u_device_id) by (intros u; by case_decide).
    split_and!; [done..| |done].
    apply NoDup_snoc; [done|apply next_rowid_not_in].
  - unfold keys_unique.
    cbn [insert_caption update_caption_count set_users users ad_configs
      ad_events captions].
    rewrite !map_map, map_app. cbn [map cap_id].
    rewrite (map_ext (λ x, u_id (if decide (u_device_id x = device)
                                 then _ else x)) u_id)
      by (intros u; by case_decide).
    rewrite (map_ext (λ x, u_device_id (if decide (u_device_id x = device)
                                        then _ else x)) u_device_id)
      by (intros u; by case_decide).
    split_and!; [done..|].
    apply NoDup_snoc; [done|apply next_rowid_not_in].
  - unfold keys_unique.
    cbn [save_configuration users ad_configs ad_events captions].
    rewrite map_app. cbn [map ac_id].
    split_and!; [done..| |done|done].
    apply NoDup_snoc; [done|apply next_rowid_not_in].
  - unfold keys_unique.
    destruct (save_changes_columns d edited) as (-> & _ & _ & -> & -> & ->).
    done.
Qed.

Lemma keys_unique_grant d amount uid :
  keys_unique d → keys_unique (add_coins d amount uid).
Proof.
  intros (Hu & Hdev & Hc & He & Hcap). unfold keys_unique.
  cbn [add_coins set_users users ad_configs ad_events captions].
  rewrite !map_map.
  rewrite (map_ext (λ x, u_id (if decide (u_id x = uid) then _ else x)) u_id)
    by (intros u; by case_decide).
  by rewrite (map_ext (λ x, u_device_id (if decide (u_id x = uid)
                                         then _ else x)) u_device_id)
    by (intros u; by case_decide).
Qed.

Lemma reachable_keys_unique d granted : reachable d granted → keys_unique d.
Proof.
  induction 1 as [|d d' granted _ IH Hstep|d granted amount uid _ IH Huid].
  - unfold keys_unique. cbn. split_and!; apply NoDup_nil_2.
  - by eapply keys_unique_step.
  - by apply keys_unique_grant.
Qed.

(** X11. In every reachable database the ids of each table are pairwise
    distinct and no two user rows share a device token: registration, ad
    completion, caption persistence, the configuration forms and the coin
    grant all keep the keys unique. *)
Theorem reachable_keys_are_unique d granted :
  reachable d granted →
  NoDup (map u_id (users d))
  ∧ NoDup (map u_device_id (users d))
  ∧ NoDup (map ac_id (ad_configs d))
  ∧ NoDup (map ae_id (ad_events d))
  ∧ NoDup (map cap_id (captions d)).
Proof. apply reachable_keys_unique. Qed.

Lemma reachable_keys_are_unique_witness :
  (map u_id (users busy_db) = [1; 2]
   ∧ map u_device_id (users busy_db)
     = [lit "0a1b2c3d4e5f"; lit "ffffffffffff"]
   ∧ map ac_id (ad_configs busy_db) = [1; 2]
   ∧ map ae_id (ad_events busy_db) = [1; 2]
   ∧ map cap_id (captions busy_db) = [1; 2])
  ∧ NoDup (map u_id (users busy_db))
  ∧ NoDup (map u_device_id (users busy_db))
  ∧ NoDup (map ac_id (ad_configs busy_db))
  ∧ NoDup (map ae_id (ad_events busy_db))
  ∧ NoDup (map cap_id (captions busy_db)).
Proof.
  split; [split_and!; reflexivity|].
  apply (reachable_keys_are_unique busy_db ten_to_first).
  apply busy_db_reachable.
Defined.

(** ** The analytics panel *)

Lemma sum_map_add {A} (f g : A → Z) (l : list A) :
  foldr Z.add 0 (map (λ x, f x + g x) l)
  = foldr Z.add 0 (map f l) + foldr Z.add 0 (map g l).
Proof. induction l as [|x l IH]; cbn [map foldr]; lia. Qed.

Lemma sum_zero {A} (l : list A) : foldr Z.add 0 (map (λ _, 0) l) = 0.
Proof. induction l as [|x l IH]; cbn [map foldr]; lia. Qed.

(** Exactly one entry of a duplicate-free list of ids equals an id that the
    list holds. *)
Lemma sum_indicator (ids : list Z) (x : Z) :
  NoDup ids → x ∈ ids →
  foldr Z.add 0 (map (λ i, if decide (x = i) then 1 else 0) ids) = 1.
Proof.
  induction 1 as [|i ids Hi Hnd IH]; intros Hin; [by apply elem_of_nil in Hin|].
  cbn [map foldr]. destruct (decide (x = i)) as [->|Hne].
  - assert (foldr Z.add 0 (map (λ j, if decide (i = j) then 1 else 0) ids) = 0)
      as ->; [|done].
    etrans; [|apply (sum_zero ids)]. f_equal. apply map_ext_in. intros j Hj.
    apply list_elem_of_In in Hj. rewrite decide_False; [done|]. by intros <-.
  - apply elem_of_cons in Hin as [->|Hin]; [done|]. rewrite IH by done. lia.
Qed.

Lemma events_partition (ids : list Z) (events : list ad_event_row) :
  NoDup ids → (∀ e, e ∈ events → ae_user_id e ∈ ids) →
  foldr Z.add 0
    (map (λ i, Z.of_nat (length (filter (λ e, ae_user_id e = i) events))) ids)
  = Z.of_nat (length events).
Proof.
  intros Hnd. induction events as [|e events IH]; intros Hown.
  - cbn [filter length]. apply sum_zero.
  - rewrite (map_ext _ (λ i, (if decide (ae_user_id e = i) then 1 else 0)
               + Z.of_nat (length (filter (λ e, ae_user_id e = i) events)))).
    + rewrite sum_map_add, IH, sum_indicator; [cbn [length]; lia|done| |].
      * apply Hown. left.
      * intros e' He'. apply Hown. by right.
    + intros i. rewrite filter_cons. case_decide; cbn [length]; lia.
Qed.

Lemma total_ads_counts_events d granted :
  reachable d granted →
  foldr Z.add 0 (map u_ad_watched (users d)) = Z.of_nat (length (ad_events d)).
Proof.
  intros Hr. destruct (reachable_invariant d granted Hr) as (Hbal & Hown & _).
  destruct (reachable_keys_unique d granted Hr) as (Hids & _).
  rewrite <- (events_partition (map u_id (users d)) (ad_events d) Hids).
  - rewrite map_map. f_equal. apply map_ext_in. intros u Hu.
    apply list_elem_of_In in Hu. by destruct (Hbal u Hu) as [_ ->].
  - intros e He. by apply Hown.
Qed.

(** X12. In every reachable database the "Ads Watched" metric of the
    analytics panel, [SUM(ad_watched)] over the users, is the number of rows
    of the ad event log, and it is NULL exactly when there is no user row
    (and then the log is empty). *)
Theorem ads_watched_metric_counts_events d granted :
  reachable d granted →
  total_ads d
  = (if decide (users d = []) then None
     else Some (Z.of_nat (length (ad_events d))))
  ∧ (users d = [] → ad_events d = []).
Proof.
  intros Hr. split.
  - pose proof (total_ads_counts_events d granted Hr) as Hsum.
    unfold total_ads. destruct (users d) as [|u us]; [done|].
    rewrite decide_False by done. by rewrite Hsum.
  - destruct (reachable_invariant d granted Hr) as (_ & Hown & _).
    intros Hnone. destruct (ad_events d) as [|e es] eqn:E; [done|].
    assert (ae_user_id e ∈ map u_id (users d)) as Hin
      by (apply Hown; rewrite E; left).
    rewrite Hnone in Hin. by apply elem_of_nil in Hin.
Qed.

Lemma ads_watched_metric_counts_events_witness :
  (map u_ad_watched (users busy_db) = [1; 1]
   ∧ length (ad_events busy_db) = 2%nat)
  ∧ total_ads busy_db = Some 2
  ∧ (users busy_db = [] → ad_events busy_db = []).
Proof.
  split; [split; reflexivity|].
  apply (ads_watched_metric_counts_events busy_db ten_to_first).
  apply busy_db_reachable.
Defined.

(** ** The configuration grid *)

Lemma edit_row_twice e e' r : edit_row e (edit_row e' r) = edit_row e r.
Proof. done. Qed.

Lemma grid_lookup_cons e edited id :
  grid_lookup (e :: edited) id
  = match grid_lookup edited id with
    | Some e' => Some e'
    | None => if decide (ed_id e = id) then Some e else None
    end.
Proof.
  unfold grid_lookup. rewrite filter_cons.
  case_decide; [rewrite last_cons|]; by destruct (last _).
Qed.

Lemma save_changes_rows d edited :
  ad_configs (save_changes d edited)
  = map (λ r, match grid_lookup edited (ac_id r) with
              | Some e => edit_row e r
              | None => r
              end) (ad_configs d).
Proof.
  unfold save_changes. revert d.
  induction edited as [|e edited IH]; intros d.
  - cbn [foldl]. by rewrite map_id.
  - cbn [foldl]. rewrite IH. cbn [update_config ad_configs].
    rewrite map_map. apply map_ext. intros r. rewrite grid_lookup_cons.
    destruct (decide (ac_id r = ed_id e)) as [E|E].
    + cbn [ac_id].
      destruct (grid_lookup edited (ac_id r)); [done|].
      by rewrite decide_True.
    + destruct (grid_lookup edited (ac_id r)); [done|].
      rewrite decide_False; [done|]. congruence.
Qed.

Lemma database_eta d d' :
  users d' = users d → ad_configs d' = ad_configs d →
  ad_events d' = ad_events d → captions d' = captions d → d' = d.
Proof. destruct d, d'. cbn. by intros -> -> -> ->. Qed.

(** X13. "Save Changes" rewrites the four editable columns only: it adds and
    removes no configuration row, keeps every row's id, platform name and
    API key, and leaves the other three tables untouched, whatever the grid
    holds (also rows whose id matches no configuration). *)
Theorem save_changes_keeps_rows_and_keys d edited :
  map (λ r, (ac_id r, ac_platform_name r, ac_api_key r))
    (ad_configs (save_changes d edited))
  = map (λ r, (ac_id r, ac_platform_name r, ac_api_key r)) (ad_configs d)
  ∧ users (save_changes d edited) = users d
  ∧ ad_events (save_changes d edited) = ad_events d
  ∧ captions (save_changes d edited) = captions d.
Proof.
  destruct (save_changes_columns d edited) as (_ & _ & _ & -> & -> & ->).
  split; [|done]. rewrite save_changes_rows, map_map. apply map_ext.
  intros r. by destruct (grid_lookup edited (ac_id r)).
Qed.

(** X14. The row-by-row UPDATEs of "Save Changes" amount to one pass over
    the table: each configuration takes priority, active flag, ads per use
    and coins from the last row of the grid that carries its id, and a
    configuration whose id is not in the grid stays as it is. *)
Theorem save_changes_last_edit_wins d edited :
  ad_configs (save_changes d edited)
  = map (λ r, match last (filter (λ e, ed_id e = ac_id r) edited) with
              | Some e =>
                  {| ac_id := ac_id r;
                     ac_platform_name := ac_platform_name r;
                     ac_api_key := ac_api_key r;
                     ac_priority := ed_priority e;
                     ac_is_active := ed_is_active e;
                     ac_ads_per_use := ed_ads_per_use e;
                     ac_min_coins := ed_min_coins e |}
              | None => r
              end) (ad_configs d).
Proof. apply save_changes_rows. Qed.

(** X15. Saving the grid as it was displayed changes nothing: when the ids
    of the configurations are pairwise distinct, "Save Changes" on the rows
    of [SELECT * FROM ad_configs ORDER BY priority] gives back the same
    database. *)
Theorem save_unedited_grid_is_identity d :
  NoDup (map ac_id (ad_configs d)) →
  save_changes d (configs_grid d) = d.
Proof.
  intros Hnd.
  destruct (save_changes_columns d (configs_grid d))
    as (_ & _ & _ & Hu & He & Hc).
  apply database_eta; [done| |done..].
  rewrite save_changes_rows. rewrite <- (map_id (ad_configs d)) at 2.
  apply map_ext_in. intros r Hr. apply list_elem_of_In in Hr.
  destruct (grid_lookup (configs_grid d) (ac_id r)) as [e|] eqn:E; [|done].
  unfold grid_lookup in E. apply last_Some_elem_of in E.
  apply list_elem_of_filter in E as [Hid He'].
  unfold configs_grid in He'. apply elem_of_map in He' as (r' & -> & Hr').
  rewrite order_by_priority_Permutation in Hr'. cbn [grid_row ed_id] in Hid.
  assert (r' = r) as ->.
  { apply list_elem_of_lookup in Hr as [i Hi].
    apply list_elem_of_lookup in Hr' as [j Hj].
    assert (i = j) as ->; [|congruence].
    apply (NoDup_lookup _ i j (ac_id r) Hnd).
    - change (map ac_id (ad_configs d)) with (ac_id <$> ad_configs d).
      by rewrite list_lookup_fmap, Hi.
    - change (map ac_id (ad_configs d)) with (ac_id <$> ad_configs d).
      by rewrite list_lookup_fmap, Hj, <- Hid. }
  by destruct r.
Qed.

Lemma save_unedited_grid_is_identity_witness :
  save_changes sample_db (configs_grid sample_db) = sample_db.
Proof.
  apply (save_unedited_grid_is_identity sample_db).
  apply (bool_decide_unpack _). vm_compute. exact I.
Defined.

(** ** The dashboard as a whole *)

Lemma add_coins_columns d amount uid :
  map (λ u, (u_id u, u_device_id u, u_created_at u, u_last_active u,
             u_caption_count u, u_ad_watched u)) (users (add_coins d amount uid))
  = map (λ u, (u_id u, u_device_id u, u_created_at u, u_last_active u,
               u_caption_count u, u_ad_watched u)) (users d).
Proof.
  cbn [add_coins set_users users]. rewrite map_map. apply map_ext.
  intros u. by case_decide.
Qed.

Lemma dashboard_store_frame env_password admin_pass action s :
  let s' := enterprise_admin_dashboard env_password admin_pass action s in
  ad_events (store s') = ad_events (store s)
  ∧ captions (store s') = captions (store s)
  ∧ map (λ u, (u_id u, u_device_id u, u_created_at u, u_last_active u,
               u_caption_count u, u_ad_watched u)) (users (store s'))
    = map (λ u, (u_id u, u_device_id u, u_created_at u, u_last_active u,
                 u_caption_count u, u_ad_watched u)) (users (store s)).
Proof.
  intros s'. unfold s', enterprise_admin_dashboard.
  case_decide as Hpass; [done|].
  destruct action as [|platform api_key priority is_active ads_per_use
    min_coins|edited|selected_user amount|users_csv captions_csv archive
    |free_tier_ads premium_price premium_benefits|dump|];
    cbn [store]; [done|done| | | |done..].
  - case_decide; [done|]. cbn [store].
    destruct (save_changes_columns (store s) edited)
      as (_ & _ & _ & -> & -> & ->). done.
  - case_decide; [|done]. cbn [store].
    split_and!; [done|done|apply add_coins_columns].
  - by case_decide.
Qed.

Lemma write_other fs path text other :
  other ≠ path → write fs path text !! other = fs !! other.
Proof. intros Hne. unfold write. by rewrite lookup_alter_ne. Qed.

Lemma open_w_other fs path other :
  other ≠ path → open_w fs path !! other = fs !! other.
Proof. intros Hne. unfold open_w. by rewrite lookup_insert_ne. Qed.

Lemma backup_database_other fs dump other :
  other ≠ "backup.sql" → backup_database fs dump !! other = fs !! other.
Proof.
  intros Hne. unfold backup_database.
  rewrite <- (open_w_other fs "backup.sql" other Hne).
  generalize (open_w fs "backup.sql"). induction dump as [|line dump IH];
    intros f; cbn [foldl]; [done|].
  by rewrite IH, write_other.
Qed.

(** X16. With a password that differs from the configured one (or from
    [admin123] when none is configured) a run of the dashboard changes
    nothing.  With the right one it still never touches the ad event log,
    the captions, or any column of a user row other than the coins.  The
    only files it writes are [business_config.json] (settings form),
    [user_data_export.zip], [users.csv] and [captions.csv] (export button)
    and [backup.sql] (backup button); every other button writes no file,
    and a run that writes a file leaves the database as it is. *)
Theorem dashboard_frame env_password admin_pass action s :
  let s' := enterprise_admin_dashboard env_password admin_pass action s in
  (admin_pass ≠ default (lit "admin123") env_password → s' = s)
  ∧ ad_events (store s') = ad_events (store s)
  ∧ captions (store s') = captions (store s)
  ∧ map (λ u, (u_id u, u_device_id u, u_created_at u, u_last_active u,
               u_caption_count u, u_ad_watched u)) (users (store s'))
    = map (λ u, (u_id u, u_device_id u, u_created_at u, u_last_active u,
                 u_caption_count u, u_ad_watched u)) (users (store s))
  ∧ (∀ path, disk s' !! path ≠ disk s !! path →
       match action with
       | SaveBusinessSettings _ _ _ => path = "business_config.json"
       | ExportAllUserData _ _ _ =>
           path ∈ ["user_data_export.zip"; "users.csv"; "captions.csv"]
       | BackupDatabase _ => path = "backup.sql"
       | _ => False
       end)
  ∧ (disk s' ≠ disk s → store s' = store s).
Proof.
  intros s'.
  destruct (dashboard_store_frame env_password admin_pass action s)
    as (He & Hc & Hu).
  split; [|split; [done|split; [done|split; [done|]]]].
  { unfold s', enterprise_admin_dashboard. intros Hpass.
    by rewrite decide_True. }
  unfold s', enterprise_admin_dashboard. clear He Hc Hu.
  case_decide as Hpass; [split; [|done]; by destruct action|].
  destruct action as [|platform api_key priority is_active ads_per_use
    min_coins|edited|selected_user amount|users_csv captions_csv archive
    |free_tier_ads premium_price premium_benefits|dump|];
    cbn [store disk]; [done|done| | | | | |done].
  - by case_decide.
  - by case_decide.
  - case_decide; [done|]. cbn [store disk]. split; [|done].
    intros path Hpath.
    destruct (decide (path = "user_data_export.zip")) as [->|Hzip];
      [set_solver|].
    destruct (decide (path = "users.csv")) as [->|Husers]; [set_solver|].
    destruct (decide (path = "captions.csv")) as [->|Hcaptions];
      [set_solver|].
    destruct Hpath. unfold export_all_user_data. cbv zeta.
    by repeat first [rewrite write_other by done|rewrite open_w_other by done].
  - split; [|done]. intros path Hpath.
    destruct (decide (path = "business_config.json")) as [->|Hne]; [done|].
    destruct Hpath. unfold save_business_settings. cbv zeta.
    by rewrite write_other, open_w_other by done.
  - split; [|done]. intros path Hpath.
    destruct (decide (path = "backup.sql")) as [->|Hne]; [done|].
    destruct Hpath. by apply backup_database_other.
Qed.

Lemma dashboard_frame_witness :
  enterprise_admin_dashboard None (lit "letmein") (ApplyAddCoins 1 10)
    {| store := sample_db; disk := old_files |}
  = {| store := sample_db; disk := old_files |}
  ∧ disk (enterprise_admin_dashboard None (lit "admin123")
            (BackupDatabase [lit "BEGIN TRANSACTION;"; lit "COMMIT;"])
            {| store := sample_db; disk := old_files |})
    !! "business_config.json"
    = old_files !! "business_config.json"
  ∧ disk (enterprise_admin_dashboard None (lit "admin123")
            (ExportAllUserData (lit "id") (lit "id") (lit "PK"))
            {| store := sample_db; disk := old_files |})
    !! "backup.sql"
    = old_files !! "backup.sql".
Proof.
  split; [|split].
  - apply (proj1 (dashboard_frame None (lit "letmein") (ApplyAddCoins 1 10)
                    {| store := sample_db; disk := old_files |})).
    discriminate.
  - match goal with |- ?l = ?r => destruct (decide (l = r)) as [E|E] end;
      [exact E|exfalso].
    by apply (proj1 (proj2 (proj2 (proj2 (proj2
           (dashboard_frame None (lit "admin123")
              (BackupDatabase [lit "BEGIN TRANSACTION;"; lit "COMMIT;"])
              {| store := sample_db; disk := old_files |})))))) in E.
  - match goal with |- ?l = ?r => destruct (decide (l = r)) as [E|E] end;
      [exact E|exfalso].
    apply (proj1 (proj2 (proj2 (proj2 (proj2
           (dashboard_frame None (lit "admin123")
              (ExportAllUserData (lit "id") (lit "id") (lit "PK"))
              {| store := sample_db; disk := old_files |})))))) in E.
    apply (bool_decide_pack _) in E. vm_compute in E. destruct E.
Defined.

(** X17. Coin grants add up and do not depend on their order: two grants to
    one user are one grant of the sum, and grants to two users commute. *)
Theorem add_coins_composes d a b uid other :
  add_coins (add_coins d a uid) b uid = add_coins d (a + b) uid
  ∧ add_coins (add_coins d a uid) b other
    = add_coins (add_coins d b other) a uid.
Proof.
  unfold add_coins, set_users. cbn [users ad_configs ad_events captions].
  rewrite !map_map. split; f_equal; apply map_ext; intros u.
  - destruct (decide (u_id u = uid)) as [E|E]; cbn [grant u_id].
    + rewrite decide_True by done. unfold grant. cbn. f_equal. lia.
    + by rewrite decide_False.
  - destruct (decide (u_id u = uid)) as [E|E];
      destruct (decide (u_id u = other)) as [E'|E']; cbn [grant u_id];
      repeat first [rewrite decide_True by done|rewrite decide_False by done];
      [|done..].
    unfold grant. cbn. f_equal. lia.
Qed.

(** X18. Saving the business settings twice leaves the file of the second
    save alone, whatever the first one wrote, and a save never creates or
    changes any other file. *)
Theorem settings_last_save_wins fs ads price benefits ads' price' benefits' :
  save_business_settings (save_business_settings fs ads price benefits)
    ads' price' benefits'
  = save_business_settings fs ads' price' benefits'
  ∧ ∀ path, path ≠ settings_path →
      save_business_settings fs ads price benefits !! path = fs !! path.
Proof.
  unfold save_business_settings, write, open_w. split.
  - apply map_eq. intros path.
    destruct (decide (path = settings_path)) as [->|Hne].
    + by rewrite !lookup_alter_eq, !lookup_insert_eq.
    + by rewrite !lookup_alter_ne, !lookup_insert_ne, lookup_alter_ne,
        lookup_insert_ne.
  - intros path Hne. by rewrite lookup_alter_ne, lookup_insert_ne.
Qed.

(** ** What the program as a whole stores *)

Lemma platform_ids_step d d' :
  (∀ e, e ∈ ad_events d → ae_platform_id e ∈ map ac_id (ad_configs d)) →
  db_step d d' →
  ∀ e, e ∈ ad_events d' → ae_platform_id e ∈ map ac_id (ad_configs d').
Proof.
  intros Hfk Hstep.
  destruct Hstep as [d device now d' Hins|w now uid Huid
    |d uid img_hash caption tags now device
    |d platform api_key priority is_active ads_per_use min_coins
    |d edited].
  - unfold insert_user in Hins. case_decide; [done|]. by injection Hins as <-.
  - rewrite show_ads_db.
    destruct (select_active (db w)) as [|p l] eqn:E; [done|].
    cbn [insert_ad_event update_reward set_users ad_events ad_configs].
    intros e [He|He]%elem_of_app; [by apply Hfk|].
    apply list_elem_of_singleton in He as ->. cbn [ae_platform_id]. apply elem_of_map. exists p. split; [done|].
    assert (p ∈ select_active (db w)) as Hp by (rewrite E; left).
    by apply select_active_elem in Hp as [Hp _].
  - done.
  - cbn [save_configuration ad_events ad_configs]. intros e He.
    rewrite map_app. apply elem_of_app. left. by apply Hfk.
  - destruct (save_changes_columns d edited) as (-> & _ & _ & _ & -> & _).
    done.
Qed.

(** X19. Every ad event of a reachable database names a platform that is
    still in the configuration table: events take their platform id from an
    active row, and no form deletes a row or changes an id.  (SQLite does
    not enforce the declared foreign key; the statements keep it.) *)
Theorem ad_events_name_existing_platforms d granted e :
  reachable d granted → e ∈ ad_events d →
  ae_platform_id e ∈ map ac_id (ad_configs d).
Proof.
  intros Hr. revert e.
  induction Hr as [|d d' granted _ IH Hstep|d granted amount uid _ IH Huid].
  - intros e He. by apply elem_of_nil in He.
  - by eapply platform_ids_step.
  - done.
Qed.

Lemma ad_events_name_existing_platforms_witness :
  ae_platform_id
    {| ae_id := 1; ae_user_id := 1; ae_platform_id := 1; ae_timestamp := 50;
       ae_coins_earned := 3 |}
  ∈ map ac_id
      (ad_configs
         (db (show_ads_to_user 50 1
                (main_user_app capitalize_ascii first_visit
                   opening_world).1).1)).
Proof.
  apply (ad_events_name_existing_platforms _ (λ _, 0)).
  - apply (reachable_step
             (db (main_user_app capitalize_ascii first_visit
                    opening_world).1)).
    + apply (reachable_step zero_ads_db).
      * apply (reachable_step init_db); [apply reachable_init|].
        apply step_save_configuration.
      * apply (step_register _ (lit "0a1b2c3d4e5f") 10). reflexivity.
    + apply step_ad_completed. cbn. left.
  - cbn. left.
Defined.

Lemma page_run_store capitalize inp w :
  session_reachable capitalize (ss w) →
  db (main_user_app capitalize inp w).1 = db w
  ∨ db (main_user_app capitalize inp w).1
    = set_users (db w)
        (users (db w) ++ [new_user_row (db w) (time_hash inp) (now inp)]).
Proof.
  intros [Hnew|[device Hinit]]%reachable_session_shape.
  - pose proof (initialize_session_new inp w Hnew) as Hrun.
    unfold insert_user in Hrun. case_decide.
    + left. unfold main_user_app. by erewrite bind_raises by exact Hrun.
    + right. rewrite (main_user_app_after_init _ _ _ _ Hrun) by done.
      by rewrite main_user_app_initialized.
  - left. destruct w as [d s]. cbn in Hinit. subst s.
    by rewrite main_user_app_initialized.
Qed.

(** X20. Starting from a new database file, whatever visitors and admins
    do, the program never stores a caption or an ad event, and every user
    row keeps caption count 0, ad counter 0 and no last-active time: the
    main page only registers devices, and the dashboard only changes coins
    and configurations. *)
Theorem nothing_is_ever_logged capitalize d :
  store_reachable capitalize d →
  captions d = [] ∧ ad_events d = []
  ∧ Forall (λ u, u_caption_count u = 0 ∧ u_ad_watched u = 0
                 ∧ u_last_active u = None) (users d).
Proof.
  induction 1 as [|w inp _ (Hc & He & Hu) Hs
    |env_password admin_pass action s _ (Hc & He & Hu)].
  - split_and!; [done|done|constructor].
  - destruct (page_run_store capitalize inp w Hs) as [->| ->]; [done|].
    cbn [set_users captions ad_events users]. split_and!; [done|done|].
    apply Forall_app. split; [done|]. by repeat constructor.
  - destruct (dashboard_store_frame env_password admin_pass action s)
      as (-> & -> & Hcols).
    split_and!; [done|done|].
    assert (map (λ u, (u_caption_count u, u_ad_watched u, u_last_active u))
              (users (store (enterprise_admin_dashboard env_password
                               admin_pass action s)))
            = map (λ u, (u_caption_count u, u_ad_watched u, u_last_active u))
                (users (store s))) as Hsame.
    { apply (f_equal (map (λ t : Z * str * Z * option Z * Z * Z,
                             (t.1.2, t.2, t.1.1.2)))) in Hcols.
      by rewrite !map_map in Hcols. }
    apply Forall_forall. intros u' Hu'.
    assert ((u_caption_count u', u_ad_watched u', u_last_active u')
            ∈ map (λ u, (u_caption_count u, u_ad_watched u, u_last_active u))
                (users (store s))) as Hin.
    { rewrite <- Hsame. apply elem_of_map. by exists u'. }
    apply elem_of_map in Hin as (u & [= -> -> ->] & Hin).
    rewrite Forall_forall in Hu. by apply Hu.
Qed.

Lemma nothing_is_ever_logged_witness :
  captions granted_db = [] ∧ ad_events granted_db = []
  ∧ Forall (λ u, u_caption_count u = 0 ∧ u_ad_watched u = 0
                 ∧ u_last_active u = None) (users granted_db).
Proof.
  apply (nothing_is_ever_logged capitalize_ascii granted_db).
  apply (store_dashboard capitalize_ascii None (lit "admin123")
           (ApplyAddCoins 1 10)
           {| store := db (main_user_app capitalize_ascii first_visit
                             opening_world).1;
              disk := ∅ |}).
  apply (store_page capitalize_ascii opening_world first_visit).
  - apply (store_dashboard capitalize_ascii None (lit "admin123")
             (SaveConfiguration (lit "start.io") (lit "k2") 1 true 0 3)
             {| store := init_db; disk := ∅ |}).
    apply store_new.
  - apply reach_new.
Defined.
